(** * Download dashboard: a shallow embedding of the frontend and its proofs

    The development follows [frontend/src/App.tsx] and
    [frontend/src/observability.ts].  Pure helpers become functions,
    handlers that talk to the browser become programs of a small free
    monad whose events are the calls the code makes (fetch, spans, Sentry,
    React state setters, clocks and random identifiers). *)

From Stdlib Require Import ZArith QArith Ascii String List Lia Bool.
From stdpp Require Import base option list gmap strings pretty.

Local Open Scope string_scope.
Local Open Scope list_scope.
Local Open Scope Z_scope.

(** ** ECMAScript numbers

    A Number is an IEEE-754 binary64.  The finite ones are kept by value, as
    a reduced rational, so the order on them is the order on [Q].  The two
    zeros are identified: no operation used by the dashboard separates them. *)

Module JsNumber.

Inductive number : Type :=
| NaN
| PosInfinity
| NegInfinity
| Fin (q : Q).

Definition ofZ (z : Z) : number := Fin (inject_Z z).

(** [a / b >= 2^e], for positive [a] and [b]. *)
Definition scale_ge (a b e : Z) : bool :=
  if 0 <=? e then b * 2 ^ e <=? a else b <=? a * 2 ^ (- e).

(** The integer part of the binary logarithm of [a / b]. *)
Definition floor_log2 (a b : Z) : Z :=
  let e := Z.log2 a - Z.log2 b in
  if scale_ge a b e then e else e - 1.

(** The integer nearest to [a / b], ties to the even one. *)
Definition round_half_even (a b : Z) : Z :=
  let q := a / b in
  match 2 * (a mod b) ?= b with
  | Lt => q
  | Gt => q + 1
  | Eq => if Z.even q then q else q + 1
  end.

(** Rounding of the positive rational [a / b] to binary64, to nearest with
    ties to even: 53 bits of precision, least exponent -1074 (subnormals),
    overflow to infinity from [2^1024]. *)
Definition roundDouble_pos (a b : Z) : number :=
  let e := floor_log2 a b in
  let x := Z.max (e - 52) (-1074) in
  if 0 <=? x then
    let m := round_half_even a (b * 2 ^ x) in
    if 2 ^ 1024 <=? m * 2 ^ x then PosInfinity else Fin (inject_Z (m * 2 ^ x))
  else
    let m := round_half_even (a * 2 ^ (- x)) b in
    Fin (Qred (Qmake m (Z.to_pos (2 ^ (- x))))).

Definition negate (n : number) : number :=
  match n with
  | NaN => NaN
  | PosInfinity => NegInfinity
  | NegInfinity => PosInfinity
  | Fin q => Fin (Qred (- q))
  end.

(** The Number denoted by the decimal [m * 10^e10], [m >= 0]. *)
Definition ofDecimal (m e10 : Z) : number :=
  if m =? 0 then Fin 0
  else if 0 <=? e10 then roundDouble_pos (m * 10 ^ e10) 1
  else roundDouble_pos m (10 ^ (- e10)).

(** *** Characters *)

Definition code (c : ascii) : Z := Z.of_N (N_of_ascii c).

(** WhiteSpace and LineTerminator code points below 256: TAB, LF, VT, FF, CR,
    SP and NBSP.  This is the class [\s], and the one [trim] strips. *)
Definition isWhiteSpace (c : ascii) : bool :=
  let n := code c in
  ((9 <=? n) && (n <=? 13)) || (n =? 32) || (n =? 160).

Definition digitValue (radix : Z) (c : ascii) : option Z :=
  let n := code c in
  let v :=
    if (48 <=? n) && (n <=? 57) then Some (n - 48)
    else if (97 <=? n) && (n <=? 102) then Some (n - 87)
    else if (65 <=? n) && (n <=? 70) then Some (n - 55)
    else None in
  match v with
  | Some d => if d <? radix then Some d else None
  | None => None
  end.

(** The longest prefix of digits of the radix, most significant first, and
    the rest of the string. *)
Fixpoint takeDigits (radix : Z) (s : string) : list Z * string :=
  match s with
  | EmptyString => ([], EmptyString)
  | String c s' =>
      match digitValue radix c with
      | Some d => let '(ds, r) := takeDigits radix s' in (d :: ds, r)
      | None => ([], s)
      end
  end.

Definition digitsValue (radix : Z) (ds : list Z) : Z :=
  fold_left (fun acc d => radix * acc + d) ds 0.

(** *** String.prototype.trim *)

Fixpoint trimStart (s : string) : string :=
  match s with
  | EmptyString => EmptyString
  | String c s' => if isWhiteSpace c then trimStart s' else s
  end.

Fixpoint trimEnd (s : string) : string :=
  match s with
  | EmptyString => EmptyString
  | String c s' =>
      match trimEnd s' with
      | EmptyString => if isWhiteSpace c then EmptyString else String c EmptyString
      | t => String c t
      end
  end.

Definition trim (s : string) : string := trimEnd (trimStart s).

(** *** StringToNumber *)

(** ExponentPart, optional: [Some 0] when absent, [None] when malformed or
    followed by anything. *)
Definition parseExponent (s : string) : option Z :=
  match s with
  | EmptyString => Some 0
  | String c s' =>
      if (code c =? 101) || (code c =? 69) then
        let '(neg, s'') :=
          match s' with
          | String sg t =>
              if code sg =? 43 then (false, t)
              else if code sg =? 45 then (true, t)
              else (false, s')
          | EmptyString => (false, s')
          end in
        match takeDigits 10 s'' with
        | ((_ :: _) as ds, EmptyString) =>
            let v := digitsValue 10 ds in Some (if neg then - v else v)
        | _ => None
        end
      else None
  end.

(** StrUnsignedDecimalLiteral. *)
Definition parseUnsignedDecimal (s : string) : number :=
  if String.eqb s "Infinity" then PosInfinity
  else
    let '(ints, r1) := takeDigits 10 s in
    let '(dot, fracs, r2) :=
      match r1 with
      | String c t =>
          if code c =? 46 then let '(fs, r) := takeDigits 10 t in (true, fs, r)
          else (false, [], r1)
      | EmptyString => (false, [], r1)
      end in
    let wellFormed :=
      match ints, fracs with
      | [], [] => false
      | _, _ => true
      end in
    if wellFormed then
      match parseExponent r2 with
      | Some e =>
          ofDecimal (digitsValue 10 (ints ++ fracs)) (e - Z.of_nat (length fracs))
      | None => NaN
      end
    else NaN.

(** NonDecimalIntegerLiteral: the digits after [0x], [0o] or [0b]. *)
Definition parseRadix (radix : Z) (s : string) : number :=
  match takeDigits radix s with
  | ((_ :: _) as ds, EmptyString) => ofDecimal (digitsValue radix ds) 0
  | _ => NaN
  end.

(** [Number(s)] for a string argument. *)
Definition Number (s : string) : number :=
  match trim s with
  | EmptyString => Fin 0
  | String c0 rest as t =>
      let radixOf (c : ascii) : option Z :=
        let n := code c in
        if (n =? 120) || (n =? 88) then Some 16
        else if (n =? 111) || (n =? 79) then Some 8
        else if (n =? 98) || (n =? 66) then Some 2
        else None in
      let prefixed :=
        match rest with
        | String c1 body =>
            if code c0 =? 48 then
              match radixOf c1 with
              | Some r => Some (parseRadix r body)
              | None => None
              end
            else None
        | EmptyString => None
        end in
      match prefixed with
      | Some n => n
      | None =>
          if code c0 =? 43 then parseUnsignedDecimal rest
          else if code c0 =? 45 then negate (parseUnsignedDecimal rest)
          else parseUnsignedDecimal t
      end
  end.

(** *** Number.isFinite and the relational operators *)

Definition isFinite (n : number) : bool :=
  match n with
  | Fin _ => true
  | _ => false
  end.

(** [x <= y]; false as soon as one side is NaN. *)
Definition le (x y : number) : bool :=
  match x, y with
  | NaN, _ | _, NaN => false
  | NegInfinity, _ => true
  | _, PosInfinity => true
  | PosInfinity, _ => false
  | _, NegInfinity => false
  | Fin p, Fin q => Qle_bool p q
  end.

(** [x >= y]. *)
Definition ge (x y : number) : bool := le y x.

(** [Number.isInteger]. *)
Definition isInteger (n : number) : bool :=
  match n with
  | Fin q => Pos.eqb (Qden (Qred q)) 1
  | _ => false
  end.

End JsNumber.

Import JsNumber.

(** ** [App.tsx]: the data model *)

Inductive DownloadJobStatus : Type :=
| queued
| running
| processing_artifacts
| completed
| failed
| cancelled
| expired.

#[global] Instance DownloadJobStatus_eq_dec : EqDecision DownloadJobStatus.
Proof. solve_decision. Defined.

Inductive Priority : Type := standard | low.

Record DownloadJob : Type := {
  jobId : string;
  status : DownloadJobStatus;
  progressPercent : Z;
  message : string;
  attempts : Z;
  downloadUrl : option string;
  checksum : option string;
  size : option Z;
  retryAfterMs : option Z;
  fileIds : list number;
  priority : Priority;
  userId : string;
  createdAt : string;
  startedAt : option string;
  completedAt : option string;
  expiresAt : string;
  lastSyncedAt : Z
}.

Inductive HealthCode : Type := healthy | unhealthy.
Inductive StorageCode : Type := storage_ok | storage_error.

Record HealthStatus : Type := {
  health_status : HealthCode;
  health_storage : StorageCode;
  checkedAt : string
}.

Record RequestMetric : Type := {
  metric_id : string;
  endpoint : string;
  method : string;
  duration : Q;
  metric_status : Z;
  success : bool;
  metric_timestamp : string;
  metric_traceId : string
}.

Record ErrorEvent : Type := {
  error_id : string;
  error_message : string;
  error_traceId : option string;
  error_timestamp : string;
  error_context : option string
}.

Definition terminalStatuses : list DownloadJobStatus :=
  [completed; failed; cancelled; expired].

(** ** [parseFileIds] *)

(** One character of the separator class [[\s,]]. *)
Definition isSeparator (c : ascii) : bool :=
  isWhiteSpace c || (code c =? 44).

(** [input.split(/[\s,]+/)]: the pieces between maximal runs of separators;
    a run at either end leaves an empty piece there, and the empty string
    splits into one empty piece.  [cur] is the piece being read and [inSep]
    tells that the previous character belonged to a separator run. *)
Fixpoint split_go (s cur : string) (inSep : bool) : list string :=
  match s with
  | EmptyString => [cur]
  | String c s' =>
      if isSeparator c then
        if inSep then split_go s' cur true
        else cur :: split_go s' EmptyString true
      else split_go s' (cur +:+ String c EmptyString) false
  end.

Definition split (input : string) : list string :=
  split_go input EmptyString false.

Definition inRange (num : number) : bool :=
  isFinite num && ge num (ofZ 10000) && le num (ofZ 100000000).

Definition parseFileIds (input : string) : list number :=
  filter (fun num => inRange num = true)
    (map (fun token => Number (trim token)) (split input)).

(** The identifiers kept from a list of tokens: [parseFileIds] is [idsOf]
    after [split]. *)
Definition idsOf (tokens : list string) : list number :=
  filter (fun num => inRange num = true) (map (fun token => Number (trim token)) tokens).

(** ** Programs

    A handler of the dashboard is a finite tree of calls into the browser
    and its libraries: each node is one call, with a continuation for its
    answer.  [prog E R] is the free monad over the calls [E]. *)

Inductive prog (E : Type -> Type) (R : Type) : Type :=
| Ret (r : R)
| Vis {X : Type} (e : E X) (k : X -> prog E R).

Arguments Ret {E R} r.
Arguments Vis {E R X} e k.

Fixpoint bind {E A B} (m : prog E A) (f : A -> prog E B) : prog E B :=
  match m with
  | Ret a => f a
  | Vis e k => Vis e (fun x => bind (k x) f)
  end.

#[global] Instance prog_ret {E} : MRet (prog E) := fun _ a => Ret a.
#[global] Instance prog_bind {E} : MBind (prog E) := fun _ _ f m => bind m f.

Definition trigger {E X} (e : E X) : prog E X := Vis e Ret.

(** Calls of two origins side by side. *)
Inductive sumE (E F : Type -> Type) (X : Type) : Type :=
| inlE (e : E X)
| inrE (f : F X).

Arguments inlE {E F X} e.
Arguments inrE {E F X} f.

Fixpoint liftL {E F R} (m : prog E R) : prog (sumE E F) R :=
  match m with
  | Ret r => Ret r
  | Vis e k => Vis (inlE e) (fun x => liftL (k x))
  end.

Fixpoint liftR {E F R} (m : prog F R) : prog (sumE E F) R :=
  match m with
  | Ret r => Ret r
  | Vis f k => Vis (inrE f) (fun x => liftR (k x))
  end.

(** *** Exceptions

    A thrown value is an [Error] object, with its name and message, or any
    other value, kept as what [String(err)] yields.  A program that may
    throw returns a sum, [inl] for the exception. *)

Inductive JsError : Type :=
| ErrorObject (name message : string)
| OtherValue (asString : string).

(** [err instanceof Error ? err.message : String(err)] *)
Definition errorText (err : JsError) : string :=
  match err with
  | ErrorObject _ m => m
  | OtherValue s => s
  end.

Definition throw {E R} (err : JsError) : prog E (JsError + R) := Ret (inl err).

Definition bindE {E A B} (m : prog E (JsError + A))
    (f : A -> prog E (JsError + B)) : prog E (JsError + B) :=
  r ← m;
  match r with
  | inl err => Ret (inl err)
  | inr a => f a
  end.

Notation "x ←! m ; k" := (bindE m (fun x => k))
  (at level 20, m at level 100, k at level 200, only parsing).

(** [try { body } catch (err) { handler err }] *)
Definition tryCatch {E R} (body : prog E (JsError + R))
    (handler : JsError -> prog E (JsError + R)) : prog E (JsError + R) :=
  r ← body;
  match r with
  | inl err => handler err
  | inr a => Ret (inr a)
  end.

(** [try { body } finally { final }], for a [final] that completes normally. *)
Definition tryFinally {E R} (body : prog E (JsError + R))
    (final : prog E unit) : prog E (JsError + R) :=
  r ← body; final;; Ret r.

(** *** Running a program

    The environment is an oracle: it answers the [n]-th call of a run.  A run
    yields the calls made, in order and each with its answer, and the
    result. *)

Definition oracle (E : Type -> Type) : Type := forall X, nat -> E X -> X.

Inductive call (E : Type -> Type) : Type :=
| Call {X : Type} (e : E X) (x : X).

Arguments Call {E X} e x.

Fixpoint run {E R} (o : oracle E) (n : nat) (p : prog E R) : list (call E) * R :=
  match p with
  | Ret r => ([], r)
  | Vis e k =>
      let x := o _ n e in
      let '(t, r) := run o (S n) (k x) in
      (Call e x :: t, r)
  end.

(** The oracle and the calls of a lifted program. *)
Definition oracleR {E F} (o : oracle (sumE E F)) : oracle F :=
  fun X n f => o X n (inrE f).

Definition liftCallR {E F} (c : call F) : call (sumE E F) :=
  match c with
  | Call f x => Call (inrE f) x
  end.

(** ** Build-time configuration, [import.meta.env] *)

Class ImportMetaEnv : Type := {
  VITE_API_BASE_URL : option string;
  VITE_JAEGER_UI_URL : option string;
  VITE_SENTRY_DSN : option string;
  VITE_OTEL_EXPORTER_URL : option string
}.

(** Truthiness of a string that may be absent. *)
Definition truthy (s : option string) : bool :=
  match s with
  | Some (String _ _) => true
  | _ => false
  end.

Definition API_BASE_URL `{ImportMetaEnv} : string :=
  default "http://localhost:3000" VITE_API_BASE_URL.

Definition sentryDsn `{ImportMetaEnv} : option string := VITE_SENTRY_DSN.

Definition JAEGER_UI_URL `{ImportMetaEnv} : string :=
  default "http://localhost:16686" VITE_JAEGER_UI_URL.

(** ** HTTP *)

(** The object handed to [JSON.stringify] for the body of an initiation.  The
    body is kept as that object: the text written for it is not modelled. *)
Record InitiateRequest : Type := {
  file_ids : list number;
  clientRequestId : string;
  request_userId : string
}.

Record RequestInit : Type := {
  init_method : option string;
  init_headers : option (list (string * string));
  init_body : option InitiateRequest
}.

Definition emptyInit : RequestInit :=
  {| init_method := None; init_headers := None; init_body := None |}.

Definition Headers : Type := list (string * string).

(** Header names are HTTP tokens. *)
Definition isTokenChar (c : ascii) : bool :=
  let n := code c in
  ((48 <=? n) && (n <=? 57)) || ((65 <=? n) && (n <=? 90))
  || ((97 <=? n) && (n <=? 122))
  || existsb (Z.eqb n) [33; 35; 36; 37; 38; 39; 42; 43; 45; 46; 94; 95; 96; 124; 126].

Fixpoint allChars (f : ascii -> bool) (s : string) : bool :=
  match s with
  | EmptyString => true
  | String c s' => f c && allChars f s'
  end.

Definition isHeaderName (s : string) : bool :=
  match s with
  | EmptyString => false
  | _ => allChars isTokenChar s
  end.

Definition isHttpWhitespace (c : ascii) : bool :=
  let n := code c in (n =? 9) || (n =? 10) || (n =? 13) || (n =? 32).

Fixpoint stripStart (s : string) : string :=
  match s with
  | EmptyString => EmptyString
  | String c s' => if isHttpWhitespace c then stripStart s' else s
  end.

Fixpoint stripEnd (s : string) : string :=
  match s with
  | EmptyString => EmptyString
  | String c s' =>
      match stripEnd s' with
      | EmptyString => if isHttpWhitespace c then EmptyString else String c EmptyString
      | t => String c t
      end
  end.

Definition normalizeValue (s : string) : string := stripEnd (stripStart s).

Definition isHeaderValue (s : string) : bool :=
  allChars (fun c => negb ((code c =? 0) || (code c =? 10) || (code c =? 13))) s.

(** [new Headers(init)] for a record of strings: a [TypeError] when a name is
    not a token or a normalized value holds NUL, LF or CR. *)
Definition Headers_new (init : list (string * string)) : JsError + Headers :=
  if forallb (fun nv => isHeaderName (fst nv) && isHeaderValue (normalizeValue (snd nv))) init
  then inr (map (fun nv => (fst nv, normalizeValue (snd nv))) init)
  else inl (ErrorObject "TypeError" "Invalid header").

Inductive BodyKind : Type := InitiateBody | HealthBody | JobBody.

Record InitiatePayload : Type := {
  payload_jobId : string;
  payload_status : DownloadJobStatus;
  payload_expiresAt : string;
  payload_totalFileIds : Z
}.

(** The [checks] object of a health body. *)
Record HealthChecks : Type := {
  checks_storage : StorageCode
}.

(** The body of [GET /health], as parsed.  The type the caller declares has
    a [checks] object; nothing checks the parsed value against it, so a body
    can lack one: [payload_checks] is [None] then, and reading
    [data.checks.storage] throws. *)
Record HealthPayload : Type := {
  payload_health : HealthCode;
  payload_checks : option HealthChecks
}.

(** What the caller of [requestJson<T>] declares the body to be. *)
Definition payloadOf (k : BodyKind) : Type :=
  match k with
  | InitiateBody => InitiatePayload
  | HealthBody => HealthPayload
  | JobBody => DownloadJob
  end.

(** A response: its status, and what [text()] and [json()] resolve to. *)
Record Response (k : BodyKind) : Type := {
  resp_status : Z;
  resp_text : JsError + string;
  resp_json : JsError + payloadOf k
}.

Arguments resp_status {k} _.
Arguments resp_text {k} _.
Arguments resp_json {k} _.

(** [response.ok]: the status is in the range 200-299. *)
Definition okStatus (s : Z) : bool := (200 <=? s) && (s <=? 299).

Definition ok {k} (r : Response k) : bool := okStatus (resp_status r).

(** ** React state *)

Record AppState : Type := {
  fileIdsInput : string;
  jobs : gmap string DownloadJob;
  health : option HealthStatus;
  isSubmitting : bool;
  initiateError : option string;
  metrics : list RequestMetric;
  errorEvents : list ErrorEvent;
  lastTraceId : option string
}.

Definition initialState : AppState :=
  {| fileIdsInput := "70000, 71000, 72000"; jobs := ∅; health := None;
     isSubmitting := false; initiateError := None; metrics := [];
     errorEvents := []; lastTraceId := None |}.

(** The state setters, as the code calls them. *)
Inductive update : Type :=
| setFileIdsInput (v : string)
| setHealth (h : HealthStatus)
| setIsSubmitting (b : bool)
| setInitiateError (e : option string)
| setLastTraceId (t : string)
(** [setMetrics((prev) => [m, ...prev].slice(0, 30))] *)
| setMetrics_prepend (m : RequestMetric)
(** [setErrorEvents((prev) => [e, ...prev].slice(0, 20))] *)
| setErrorEvents_prepend (e : ErrorEvent)
(** [setJobs((prev) => ({ ...prev, [key]: job }))] *)
| setJobs_put (key : string) (job : DownloadJob)
(** [setJobs((prev) => ({ ...prev, [key]: { ...prev[key], ...data, lastSyncedAt } }))] *)
| setJobs_merge (key : string) (data : DownloadJob) (syncedAt : Z).

Definition withLastSyncedAt (j : DownloadJob) (t : Z) : DownloadJob :=
  {| jobId := jobId j; status := status j; progressPercent := progressPercent j;
     message := message j; attempts := attempts j; downloadUrl := downloadUrl j;
     checksum := checksum j; size := size j; retryAfterMs := retryAfterMs j;
     fileIds := fileIds j; priority := priority j; userId := userId j;
     createdAt := createdAt j; startedAt := startedAt j;
     completedAt := completedAt j; expiresAt := expiresAt j;
     lastSyncedAt := t |}.

Definition setJobsField (st : AppState) (js : gmap string DownloadJob) : AppState :=
  {| fileIdsInput := fileIdsInput st; jobs := js; health := health st;
     isSubmitting := isSubmitting st; initiateError := initiateError st;
     metrics := metrics st; errorEvents := errorEvents st;
     lastTraceId := lastTraceId st |}.

(** The effect of one setter on the state.  In [setJobs_merge] the data has
    every field of a [DownloadJob], so nothing of [prev[key]] shows through
    the second spread. *)
Definition applyUpdate (u : update) (st : AppState) : AppState :=
  match u with
  | setFileIdsInput v =>
      {| fileIdsInput := v; jobs := jobs st; health := health st;
         isSubmitting := isSubmitting st; initiateError := initiateError st;
         metrics := metrics st; errorEvents := errorEvents st;
         lastTraceId := lastTraceId st |}
  | setHealth h =>
      {| fileIdsInput := fileIdsInput st; jobs := jobs st; health := Some h;
         isSubmitting := isSubmitting st; initiateError := initiateError st;
         metrics := metrics st; errorEvents := errorEvents st;
         lastTraceId := lastTraceId st |}
  | setIsSubmitting b =>
      {| fileIdsInput := fileIdsInput st; jobs := jobs st; health := health st;
         isSubmitting := b; initiateError := initiateError st;
         metrics := metrics st; errorEvents := errorEvents st;
         lastTraceId := lastTraceId st |}
  | setInitiateError e =>
      {| fileIdsInput := fileIdsInput st; jobs := jobs st; health := health st;
         isSubmitting := isSubmitting st; initiateError := e;
         metrics := metrics st; errorEvents := errorEvents st;
         lastTraceId := lastTraceId st |}
  | setLastTraceId t =>
      {| fileIdsInput := fileIdsInput st; jobs := jobs st; health := health st;
         isSubmitting := isSubmitting st; initiateError := initiateError st;
         metrics := metrics st; errorEvents := errorEvents st;
         lastTraceId := Some t |}
  | setMetrics_prepend m =>
      {| fileIdsInput := fileIdsInput st; jobs := jobs st; health := health st;
         isSubmitting := isSubmitting st; initiateError := initiateError st;
         metrics := take 30 (m :: metrics st); errorEvents := errorEvents st;
         lastTraceId := lastTraceId st |}
  | setErrorEvents_prepend e =>
      {| fileIdsInput := fileIdsInput st; jobs := jobs st; health := health st;
         isSubmitting := isSubmitting st; initiateError := initiateError st;
         metrics := metrics st; errorEvents := take 20 (e :: errorEvents st);
         lastTraceId := lastTraceId st |}
  | setJobs_put key job => setJobsField st (<[key := job]> (jobs st))
  | setJobs_merge key data t =>
      setJobsField st (<[key := withLastSyncedAt data t]> (jobs st))
  end.

(** ** [observability.ts] *)

Record Span : Type := {
  spanId : string;
  traceId : string
}.

(** [context.active()]: the span carried by the ambient context, if any. *)
Definition Context : Type := option Span.

Inductive SpanStatusCode : Type := UNSET | OK | ERROR.

Inductive ExtraValue : Type :=
| extraNumber (n : Z)
| extraString (s : string)
| extraError (err : JsError).

(** The calls made by [observability.ts]: OpenTelemetry, Sentry, the clock of
    [performance] and [fetch]. *)
Inductive obsE : Type -> Type :=
| startSpan (name : string) (attributes : list (string * string))
    (parent : Context) : obsE Span
| span_setAttribute (span : Span) (key : string) (value : Z) : obsE unit
| span_setStatus (span : Span) (statusCode : SpanStatusCode)
    (statusMessage : option string) : obsE unit
| span_recordException (span : Span) (err : JsError) : obsE unit
| span_end (span : Span) : obsE unit
(** [propagation.inject(ctx, headers, headerSetter)]: answers the carrier
    with the fields the propagator has set on it. *)
| propagation_inject (ctx : Context) (carrier : Headers) : obsE Headers
| performance_now : obsE Q
(** [context.with(ctx, () => fetch(input, { ...init, headers }))] *)
| fetch (k : BodyKind) (ctx : Context) (input : string) (init : RequestInit)
    (headers : Headers) : obsE (JsError + Response k)
| Sentry_captureException (err : JsError) : obsE unit
| Sentry_captureMessage (msg : string) (extra : list (string * ExtraValue)) : obsE unit
| Sentry_showReportDialog : obsE unit.

Record RecordArgs (k : BodyKind) : Type := {
  rec_traceId : string;
  rec_duration : Q;
  rec_response : Response k
}.

Arguments rec_traceId {k} _.
Arguments rec_duration {k} _.
Arguments rec_response {k} _.

(** [InstrumentedFetchOptions]; the calls of the [onRecord] callback are of
    the caller's kind [C]. *)
Record InstrumentedFetchOptions (C : Type -> Type) (k : BodyKind) : Type := {
  spanName : option string;
  parentSpan : option Span;
  onRecord : option (RecordArgs k -> prog C (JsError + unit));
  ignoreErrors : option bool
}.

Arguments spanName {C k} _.
Arguments parentSpan {C k} _.
Arguments onRecord {C k} _.
Arguments ignoreErrors {C k} _.

Record FetchResult (k : BodyKind) : Type := {
  fr_response : Response k;
  fr_traceId : string;
  fr_duration : Q
}.

Arguments fr_response {k} _.
Arguments fr_traceId {k} _.
Arguments fr_duration {k} _.

Section Observability.
Context {C : Type -> Type}.

Definition obs {X} (e : obsE X) : prog (sumE obsE C) X := trigger (inlE e).

(** The body of the [try] block of [instrumentedFetch]. *)
Definition instrumentedFetch_try (k : BodyKind) (input : string)
    (init : RequestInit) (options : InstrumentedFetchOptions C k)
    (span : Span) (headers : Headers) (started : Q)
    : prog (sumE obsE C) (JsError + FetchResult k) :=
  response ←! obs (fetch k (Some span) input init headers);
  now ← obs performance_now;
  let duration := (now - started)%Q in
  obs (span_setAttribute span "http.status_code" (resp_status response));;
  obs (span_setStatus span
         (if ok response || default false (ignoreErrors options) then OK else ERROR)
         None);;
  let traceId := traceId span in
  _ ←! match onRecord options with
       | Some callback =>
           liftR (callback {| rec_traceId := traceId; rec_duration := duration;
                               rec_response := response |})
       | None => Ret (inr tt)
       end;
  Ret (inr {| fr_response := response; fr_traceId := traceId;
              fr_duration := duration |}).

(** The [catch] block of [instrumentedFetch]. *)
Definition instrumentedFetch_catch (k : BodyKind) (span : Span) (err : JsError)
    : prog (sumE obsE C) (JsError + FetchResult k) :=
  obs (span_recordException span err);;
  obs (span_setStatus span ERROR (Some (errorText err)));;
  obs (Sentry_captureException err);;
  throw err.

(** [instrumentedFetch(input, init, options)], called under the ambient
    context [active]. *)
Definition instrumentedFetch (k : BodyKind) (active : Context) (input : string)
    (init : RequestInit) (options : InstrumentedFetchOptions C k)
    : prog (sumE obsE C) (JsError + FetchResult k) :=
  let parentContext :=
    match parentSpan options with
    | Some p => Some p
    | None => active
    end in
  let method := default "GET" (init_method init) in
  span ← obs (startSpan (default ("fetch:" +:+ method) (spanName options))
                [("http.url", input); ("http.method", method)] parentContext);
  let ctx := Some span in
  match Headers_new (default [] (init_headers init)) with
  | inl err => throw err
  | inr headers0 =>
      headers ← obs (propagation_inject ctx headers0);
      started ← obs performance_now;
      tryFinally
        (tryCatch (instrumentedFetch_try k input init options span headers started)
                  (instrumentedFetch_catch k span))
        (obs (span_end span))
  end.

(** [captureFrontendError(message, contextData)] *)
Definition captureFrontendError (msg : string)
    (contextData : list (string * ExtraValue)) : prog (sumE obsE C) unit :=
  obs (Sentry_captureMessage msg contextData).

(** [showFeedbackDialog()] *)
Definition showFeedbackDialog `{ImportMetaEnv} : prog (sumE obsE C) unit :=
  if truthy sentryDsn then obs Sentry_showReportDialog else Ret tt.

End Observability.

(** *** What a run shows

    Readings of a list of calls: the spans started and ended, the statuses
    set, the exceptions recorded and reported, the requests sent and how each
    was answered. *)

Record FetchRequest : Type := {
  req_kind : BodyKind;
  req_ctx : Context;
  req_input : string;
  req_init : RequestInit;
  req_headers : Headers
}.

Section Readings.
Context {C : Type -> Type}.

Definition startedSpan (c : call (sumE obsE C)) : option Span :=
  match c with
  | Call (inlE e) x =>
      match e in obsE X return X -> option Span with
      | startSpan _ _ _ => fun span => Some span
      | _ => fun _ => None
      end x
  | _ => None
  end.

Definition endedSpan (c : call (sumE obsE C)) : option Span :=
  match c with
  | Call (inlE (span_end span)) _ => Some span
  | _ => None
  end.

Definition statusSet (c : call (sumE obsE C)) : option (Span * SpanStatusCode) :=
  match c with
  | Call (inlE (span_setStatus span code _)) _ => Some (span, code)
  | _ => None
  end.

Definition recordedException (c : call (sumE obsE C)) : option (Span * JsError) :=
  match c with
  | Call (inlE (span_recordException span err)) _ => Some (span, err)
  | _ => None
  end.

Definition sentryException (c : call (sumE obsE C)) : option JsError :=
  match c with
  | Call (inlE (Sentry_captureException err)) _ => Some err
  | _ => None
  end.

Definition fetchRequest (c : call (sumE obsE C)) : option FetchRequest :=
  match c with
  | Call (inlE (fetch k ctx input init headers)) _ =>
      Some {| req_kind := k; req_ctx := ctx; req_input := input;
              req_init := init; req_headers := headers |}
  | _ => None
  end.


(** The answer to a [fetch] made for a body of kind [k]. *)
Definition fetchedAs (k : BodyKind) (c : call (sumE obsE C))
    : option (JsError + Response k) :=
  match c with
  | Call (inlE e) x =>
      match e in obsE X return X -> option (JsError + Response k) with
      | fetch k' _ _ _ _ =>
          match k', k return JsError + Response k' -> option (JsError + Response k) with
          | InitiateBody, InitiateBody => Some
          | HealthBody, HealthBody => Some
          | JobBody, JobBody => Some
          | _, _ => fun _ => None
          end
      | _ => fun _ => None
      end x
  | _ => None
  end.

Definition startedSpans (t : list (call (sumE obsE C))) : list Span := omap startedSpan t.
Definition endedSpans (t : list (call (sumE obsE C))) : list Span := omap endedSpan t.
Definition statusesSet (t : list (call (sumE obsE C))) : list (Span * SpanStatusCode) :=
  omap statusSet t.
Definition recordedExceptions (t : list (call (sumE obsE C))) : list (Span * JsError) :=
  omap recordedException t.
Definition sentryExceptions (t : list (call (sumE obsE C))) : list JsError :=
  omap sentryException t.
Definition fetchRequests (t : list (call (sumE obsE C))) : list FetchRequest :=
  omap fetchRequest t.

Definition fetched (k : BodyKind) (t : list (call (sumE obsE C)))
    : list (JsError + Response k) :=
  omap (fetchedAs k) t.

(** A callback that completes normally whatever the environment answers. *)
Definition neverThrows {A} (callback : option (A -> prog C (JsError + unit))) : Prop :=
  forall f args o n, callback = Some f -> (run o n (f args)).2 = inr tt.

End Readings.

(** *** More readings of a run

    How each span was started, what the propagator was handed and gave back,
    the readings of the clock, the attributes set and what went to Sentry as
    a message or as a request for the report dialog. *)

Section TraceReadings.
Context {C : Type -> Type}.

(** A span as it was started: its name, attributes and parent context. *)
Record SpanStart : Type := {
  start_name : string;
  start_attributes : list (string * string);
  start_parent : Context;
  start_span : Span
}.

Definition spanStart (c : call (sumE obsE C)) : option SpanStart :=
  match c with
  | Call (inlE e) x =>
      match e in obsE X return X -> option SpanStart with
      | startSpan name attributes parent => fun span =>
          Some {| start_name := name; start_attributes := attributes;
                  start_parent := parent; start_span := span |}
      | _ => fun _ => None
      end x
  | _ => None
  end.

(** An injection by the propagator: the context, the carrier handed over and
    the carrier as it came back. *)
Definition injection (c : call (sumE obsE C)) : option (Context * Headers * Headers) :=
  match c with
  | Call (inlE e) x =>
      match e in obsE X return X -> option (Context * Headers * Headers) with
      | propagation_inject ctx carrier => fun injected => Some (ctx, carrier, injected)
      | _ => fun _ => None
      end x
  | _ => None
  end.

Definition clockReading (c : call (sumE obsE C)) : option Q :=
  match c with
  | Call (inlE e) x =>
      match e in obsE X return X -> option Q with
      | performance_now => fun now => Some now
      | _ => fun _ => None
      end x
  | _ => None
  end.

Definition attributeSet (c : call (sumE obsE C)) : option (Span * string * Z) :=
  match c with
  | Call (inlE (span_setAttribute span key value)) _ => Some (span, key, value)
  | _ => None
  end.

Definition sentryMessage (c : call (sumE obsE C))
    : option (string * list (string * ExtraValue)) :=
  match c with
  | Call (inlE (Sentry_captureMessage msg extra)) _ => Some (msg, extra)
  | _ => None
  end.

Definition reportDialog (c : call (sumE obsE C)) : option unit :=
  match c with
  | Call (inlE Sentry_showReportDialog) _ => Some tt
  | _ => None
  end.

Definition spanStarts (t : list (call (sumE obsE C))) : list SpanStart := omap spanStart t.
Definition injections (t : list (call (sumE obsE C))) : list (Context * Headers * Headers) :=
  omap injection t.
Definition clockReadings (t : list (call (sumE obsE C))) : list Q := omap clockReading t.
Definition attributesSet (t : list (call (sumE obsE C))) : list (Span * string * Z) :=
  omap attributeSet t.
Definition sentryMessages (t : list (call (sumE obsE C)))
    : list (string * list (string * ExtraValue)) :=
  omap sentryMessage t.
Definition reportDialogs (t : list (call (sumE obsE C))) : list unit := omap reportDialog t.

End TraceReadings.

(** ** [App.tsx]: the handlers *)

(** The calls of the component itself. *)
Inductive appE : Type -> Type :=
| crypto_randomUUID : appE string
(** [new Date().toISOString()] *)
| Date_toISOString : appE string
| Date_now : appE Z
| setState (u : update) : appE unit
| window_open (url target : string) : appE unit.

Definition E : Type -> Type := sumE obsE appE.

Definition app {X} (e : appE X) : prog E X := trigger (inrE e).

(** [Omit<RequestMetric, "id" | "timestamp">] *)
Record MetricInput : Type := {
  mi_endpoint : string;
  mi_method : string;
  mi_duration : Q;
  mi_status : Z;
  mi_success : bool;
  mi_traceId : string
}.

(** [Omit<ErrorEvent, "id" | "timestamp">] *)
Record ErrorInput : Type := {
  ei_message : string;
  ei_traceId : option string;
  ei_context : option string
}.

Definition recordMetric (metric : MetricInput) : prog appE unit :=
  id ← trigger crypto_randomUUID;
  timestamp ← trigger Date_toISOString;
  trigger (setState (setMetrics_prepend
    {| metric_id := id; endpoint := mi_endpoint metric; method := mi_method metric;
       duration := mi_duration metric; metric_status := mi_status metric;
       success := mi_success metric; metric_timestamp := timestamp;
       metric_traceId := mi_traceId metric |})).

Definition recordError (event : ErrorInput) : prog appE unit :=
  id ← trigger crypto_randomUUID;
  timestamp ← trigger Date_toISOString;
  trigger (setState (setErrorEvents_prepend
    {| error_id := id; error_message := ei_message event;
       error_traceId := ei_traceId event; error_timestamp := timestamp;
       error_context := ei_context event |})).

Section App.
Context `{ImportMetaEnv}.

(** The [onRecord] callback built by [requestJson]. *)
Definition requestJson_onRecord {k} (init : RequestInit) (label : string)
    (args : RecordArgs k) : prog appE (JsError + unit) :=
  recordMetric {| mi_endpoint := label;
                  mi_method := default "GET" (init_method init);
                  mi_duration := rec_duration args;
                  mi_status := resp_status (rec_response args);
                  mi_success := ok (rec_response args);
                  mi_traceId := rec_traceId args |};;
  Ret (inr tt).

(** [requestJson<T>(path, init, spanName, label)]; [None] for an [init] left
    [undefined], which the default parameter turns into [{}]. *)
Definition requestJson (k : BodyKind) (active : Context) (path : string)
    (init : option RequestInit) (spanName label : string)
    : prog E (JsError + payloadOf k) :=
  let init := default emptyInit init in
  r ←! instrumentedFetch k active (API_BASE_URL +:+ path) init
         {| spanName := Some spanName; parentSpan := None;
            onRecord := Some (requestJson_onRecord init label);
            ignoreErrors := None |};
  let response := fr_response r in
  let traceId := fr_traceId r in
  app (setState (setLastTraceId traceId));;
  if negb (ok response) then
    text ←! Ret (resp_text response);
    captureFrontendError ("Request failed: " +:+ label)
      [("status", extraNumber (resp_status response)); ("body", extraString text);
       ("traceId", extraString traceId)];;
    liftR (recordError
      {| ei_message := label +:+ " failed (" +:+ pretty (resp_status response) +:+ ")";
         ei_traceId := Some traceId; ei_context := Some text |});;
    showFeedbackDialog;;
    throw (ErrorObject "Error"
      (match text with
       | EmptyString => "Request failed (" +:+ pretty (resp_status response) +:+ ")"
       | _ => text
       end))
  else
    data ←! Ret (resp_json response);
    Ret (inr data).

(** The [TypeError] of reading [storage] of a [checks] that is [undefined];
    the text of its message is the engine's. *)
Definition noChecksError : JsError :=
  ErrorObject "TypeError" "Cannot read properties of undefined (reading 'storage')".

(** The argument of [setHealth] is built before the call: [data.checks.storage]
    is read, and throws on a body without [checks], before [new Date()]. *)
Definition pollHealth (active : Context) : prog E unit :=
  r ← (data ←! requestJson HealthBody active "/health" None "api.health" "health";
       match payload_checks data with
       | Some checks =>
           now ← app Date_toISOString;
           app (setState (setHealth
             {| health_status := payload_health data;
                health_storage := checks_storage checks;
                checkedAt := now |}));;
           Ret (inr tt)
       | None => throw noChecksError
       end);
  match r with
  | inr _ => Ret tt
  | inl err => captureFrontendError "Health check failed" [("error", extraError err)]
  end.

Definition initiateInit (fileIds : list number) (uuid : string) : RequestInit :=
  {| init_method := Some "POST";
     init_headers := Some [("Content-Type", "application/json")];
     init_body := Some {| file_ids := fileIds; clientRequestId := uuid;
                          request_userId := "observability-demo-user" |} |}.

Definition newJob (payload : InitiatePayload) (fileIds : list number)
    (created : string) (now : Z) : DownloadJob :=
  {| jobId := payload_jobId payload;
     status := payload_status payload;
     progressPercent := 0;
     message := "Queued for processing";
     attempts := 0;
     downloadUrl := None;
     checksum := None;
     size := None;
     retryAfterMs := None;
     fileIds := fileIds;
     priority := standard;
     userId := "observability-demo-user";
     createdAt := created;
     startedAt := None;
     completedAt := None;
     expiresAt := payload_expiresAt payload;
     lastSyncedAt := now |}.

Definition handleDownloadInitiation (active : Context) (fileIds : list number)
    : prog E unit :=
  match fileIds with
  | [] =>
      app (setState (setInitiateError
        (Some "Please enter at least one file ID between 10,000 and 100,000,000.")))
  | _ :: _ =>
      app (setState (setInitiateError None));;
      app (setState (setIsSubmitting true));;
      uiSpan ← obs (startSpan "ui.initiate_download" [] active);
      r ← (uuid ← app crypto_randomUUID;
           requestJson InitiateBody (Some uiSpan) "/v1/download/initiate"
             (Some (initiateInit fileIds uuid))
             "api.download.initiate" "POST /v1/download/initiate");
      match r with
      | inr payload =>
          created ← app Date_toISOString;
          now ← app Date_now;
          app (setState (setJobs_put (payload_jobId payload)
                           (newJob payload fileIds created now)))
      | inl err =>
          captureFrontendError "Failed to initiate download" [("error", extraError err)];;
          liftR (recordError {| ei_message := "Download initiation failed";
                                ei_traceId := None;
                                ei_context := Some (errorText err) |})
      end;;
      obs (span_end uiSpan);;
      app (setState (setIsSubmitting false))
  end.

(** [handleSubmit], for the text [fileIdsInput] of the render it belongs to. *)
Definition handleSubmit (active : Context) (fileIdsInput : string) : prog E unit :=
  let ids := parseFileIds fileIdsInput in
  handleDownloadInitiation active ids.

Definition handleRetry (active : Context) (job : DownloadJob) : prog E unit :=
  handleDownloadInitiation active (fileIds job).

Definition downloadHref (job : DownloadJob) : string :=
  API_BASE_URL +:+ "/v1/download/" +:+ jobId job +:+ "?format=json".

Definition handleDownload (job : DownloadJob) : prog E unit :=
  app (window_open (downloadHref job) "_blank").

(** [Object.values(jobs)]; the enumeration order of the object is not kept by
    the map. *)
Definition Object_values (jobs : gmap string DownloadJob) : list DownloadJob :=
  (map_to_list jobs).*2.

Definition isTerminal (s : DownloadJobStatus) : bool :=
  bool_decide (s ∈ terminalStatuses).

Definition pendingJobIds (jobs : gmap string DownloadJob) : list string :=
  map jobId (filter (fun job => isTerminal (status job) = false) (Object_values jobs)).

Definition statusPath (jobId : string) : string := "/v1/download/status/" +:+ jobId.

(** The callback of [pendingJobIds.forEach] in the polling effect. *)
Definition pollJob (active : Context) (jobId : string) : prog E unit :=
  r ← requestJson JobBody active (statusPath jobId) None "api.download.status"
        ("GET /v1/download/status/" +:+ jobId);
  match r with
  | inr data =>
      now ← app Date_now;
      app (setState (setJobs_merge jobId data now))
  | inl err =>
      captureFrontendError "Status polling failed"
        [("jobId", extraString jobId); ("error", extraError err)]
  end.

(** The guard of the Download button in the job card. *)
Definition showsDownload (job : DownloadJob) : bool :=
  bool_decide (status job = completed) && truthy (downloadUrl job).

(** The [init] arguments [requestJson] is called with: none, by the health
    check, the status polling and the hydration, and that of an initiation. *)
Definition callSiteInit (init : option RequestInit) : Prop :=
  init = None \/ exists fileIds uuid, init = Some (initiateInit fileIds uuid).

End App.

(** The methods of the requests the component sends, which are the methods
    of the metrics it records. *)
Definition recordedMethod (m : string) : Prop := m = "GET" \/ m = "POST".

Definition recordedMethods (st : AppState) : Prop :=
  Forall (fun m => recordedMethod (method m)) (metrics st).

(** ** [metricsSummary] *)

Record SummaryRow : Type := {
  row_endpoint : string;
  row_method : string;
  avg : Q;
  count : Z;
  successCount : Z
}.

(** A [Map] with string keys: its entries, in order of first insertion. *)
Fixpoint Map_get {V} (key : string) (m : list (string * V)) : option V :=
  match m with
  | [] => None
  | (k, v) :: m' => if String.eqb k key then Some v else Map_get key m'
  end.

Fixpoint Map_set {V} (key : string) (v : V) (m : list (string * V)) : list (string * V) :=
  match m with
  | [] => [(key, v)]
  | (k, x) :: m' =>
      if String.eqb k key then (k, v) :: m' else (k, x) :: Map_set key v m'
  end.

Definition Map_values {V} (m : list (string * V)) : list V := map snd m.

Definition metricKey (metric : RequestMetric) : string :=
  method metric +:+ " " +:+ endpoint metric.

(** The body of [metrics.forEach]: the row of the key is fetched or created,
    updated in place and stored back. *)
Definition summaryStep (summary : list (string * SummaryRow)) (metric : RequestMetric)
    : list (string * SummaryRow) :=
  let key := metricKey metric in
  let current :=
    default {| row_endpoint := endpoint metric; row_method := method metric;
               avg := 0; count := 0; successCount := 0 |}
            (Map_get key summary) in
  let count' := count current + 1 in
  let avg' := (avg current + (duration metric - avg current) / inject_Z count')%Q in
  let successCount' :=
    if success metric then successCount current + 1 else successCount current in
  Map_set key {| row_endpoint := row_endpoint current; row_method := row_method current;
                 avg := avg'; count := count'; successCount := successCount' |}
          summary.

Definition metricsSummary (metrics : list RequestMetric) : list SummaryRow :=
  Map_values (fold_left summaryStep metrics []).

(** The state after the setters of a run have been applied, in order. *)
Definition applyCall (st : AppState) (c : call E) : AppState :=
  match c with
  | Call (inrE (setState u)) _ => applyUpdate u st
  | _ => st
  end.

Definition applyCalls (t : list (call E)) (st : AppState) : AppState :=
  fold_left applyCall t st.

(** The setters of a run leave the jobs, the health, the initiation error
    and the submitting flag as they are. *)
Definition keepsCore (t : list (call E)) : Prop :=
  forall st, jobs (applyCalls t st) = jobs st /\ health (applyCalls t st) = health st
    /\ initiateError (applyCalls t st) = initiateError st
    /\ isSubmitting (applyCalls t st) = isSubmitting st.

(** *** The rest of the component *)

(** [text || `Request failed (${response.status})`], the message of the
    [Error] thrown by [requestJson] for a response that is not ok. *)
Definition failureText (text : string) (status : Z) : string :=
  match text with
  | EmptyString => "Request failed (" +:+ pretty status +:+ ")"
  | _ => text
  end.

(** The guard of the Retry button in the job card. *)
Definition showsRetry (job : DownloadJob) : bool :=
  bool_decide (status job = failed).

Section Effects.
Context `{ImportMetaEnv}.

(** The link [Open in Jaeger] of the Trace Viewer card; the card shows no
    link while [lastTraceId] is [null] or empty. *)
Definition traceViewerHref (st : AppState) : option string :=
  if truthy (lastTraceId st)
  then Some (JAEGER_UI_URL +:+ "/trace/" +:+ default "" (lastTraceId st))
  else None.

(** The callback of [ids.forEach] in the effect that restores the jobs whose
    identifiers are kept in [localStorage]. *)
Definition hydrateJob (active : Context) (jobId : string) : prog E unit :=
  r ← requestJson JobBody active (statusPath jobId) None "api.download.status"
        ("GET /v1/download/status/" +:+ jobId);
  match r with
  | inr data =>
      now ← app Date_now;
      app (setState (setJobs_put jobId (withLastSyncedAt data now)))
  | inl err =>
      captureFrontendError "Failed to hydrate job"
        [("jobId", extraString jobId); ("error", extraError err)]
  end.


End Effects.

(** *** The summary a reader expects

    The metrics of one key, of one pair of method and endpoint, those that
    succeeded, and the arithmetic mean of the durations. *)

Definition keyGroup (key : string) (metrics : list RequestMetric) : list RequestMetric :=
  filter (fun m => metricKey m = key) metrics.

Definition pairGroup (method' endpoint' : string) (metrics : list RequestMetric)
    : list RequestMetric :=
  filter (fun m => method m = method' /\ endpoint m = endpoint') metrics.

Definition successes (group : list RequestMetric) : list RequestMetric :=
  filter (fun m => success m = true) group.

Definition sumDurations (group : list RequestMetric) : Q :=
  fold_right (fun m acc => (duration m + acc)%Q) 0%Q group.

Definition mean (group : list RequestMetric) : Q :=
  (sumDurations group / inject_Z (Z.of_nat (length group)))%Q.

Definition noSpace (s : string) : Prop :=
  allChars (fun c => negb (Ascii.eqb c " ")) s = true.

(** What a row of the summary has to be for the metrics of its key. *)
Definition rowFor (group : list RequestMetric) (row : SummaryRow) : Prop :=
  count row = Z.of_nat (length group)
  /\ successCount row = Z.of_nat (length (successes group))
  /\ (avg row * inject_Z (count row) == sumDurations group)%Q
  /\ exists first rest, group = first :: rest
       /\ row_method row = method first /\ row_endpoint row = endpoint first.

Definition summaryFor (done : list RequestMetric) (summary : list (string * SummaryRow)) : Prop :=
  NoDup (map fst summary)
  /\ forall key,
       match Map_get key summary with
       | None => keyGroup key done = []
       | Some row => rowFor (keyGroup key done) row
       end.

Definition rowKey (row : SummaryRow) : string :=
  row_method row +:+ " " +:+ row_endpoint row.

(** The requests and the successful requests counted by the rows. *)
Definition totalCount (rows : list SummaryRow) : Z :=
  foldr (fun row acc => count row + acc) 0 rows.

Definition totalSuccessCount (rows : list SummaryRow) : Z :=
  foldr (fun row acc => successCount row + acc) 0 rows.

(** ** The polling loop, with requests in flight

    The interval callback starts one polling callback per pending job; each
    runs up to its status request and is resumed when the answer arrives.
    Answers may arrive in any order, also after the interval has fired
    again. *)

(** Every record is stored under its own [jobId]. *)
Definition wellKeyed (jobs : gmap string DownloadJob) : Prop :=
  map_Forall (fun key job => jobId job = key) jobs.

(** A callback that has sent its status request and awaits the answer. *)
Record InFlight : Type := {
  inflight_request : FetchRequest;
  inflight_resume : JsError + Response JobBody -> prog E unit
}.

(** A [fetch] of a job status is where a callback is suspended: the request,
    and how its answer is handed back. *)
Definition asStatusFetch {X} (e : E X)
    : option (FetchRequest * (JsError + Response JobBody -> X)) :=
  match e with
  | inlE e1 =>
      match e1 in obsE X return option (FetchRequest * (JsError + Response JobBody -> X)) with
      | fetch k ctx input init headers =>
          match k return option (FetchRequest
                                 * (JsError + Response JobBody -> JsError + Response k)) with
          | JobBody =>
              Some ({| req_kind := JobBody; req_ctx := ctx; req_input := input;
                       req_init := init; req_headers := headers |}, fun answer => answer)
          | _ => None
          end
      | _ => None
      end
  | inrE _ => None
  end.

(** Runs a callback up to its status request: the calls made on the way, and
    the suspended callback if the request was reached. *)
Fixpoint untilFetch (o : oracle E) (n : nat) (p : prog E unit)
    : list (call E) * option InFlight :=
  match p with
  | Ret _ => ([], None)
  | Vis e k =>
      match asStatusFetch e with
      | Some (request, back) =>
          ([], Some {| inflight_request := request;
                       inflight_resume := fun answer => k (back answer) |})
      | None =>
          let x := o _ n e in
          let '(t, w) := untilFetch o (S n) (k x) in
          (Call e x :: t, w)
      end
  end.

Record Loop : Type := {
  loop_state : AppState;
  inflight : list InFlight
}.

Inductive LoopEvent : Type :=
| intervalFires (o : oracle E)
| answerArrives (i : nat) (answer : JsError + Response JobBody) (o : oracle E).

Section PollingLoop.
Context `{ImportMetaEnv}.

(** [pending.forEach(async (jobId) => ...)]: each callback runs up to its
    request. *)
Fixpoint startAll (o : oracle E) (active : Context) (pending : list string) (st : AppState)
    : AppState * list InFlight :=
  match pending with
  | [] => (st, [])
  | id :: rest =>
      let '(t, w) := untilFetch o 0 (pollJob active id) in
      let '(st', ws) := startAll o active rest (applyCalls t st) in
      (st', option_list w ++ ws)
  end.

Definition loopStep (active : Context) (l : Loop) (event : LoopEvent)
    : list FetchRequest * Loop :=
  match event with
  | intervalFires o =>
      let '(st, ws) :=
        startAll o active (pendingJobIds (jobs (loop_state l))) (loop_state l) in
      (map inflight_request ws, {| loop_state := st; inflight := inflight l ++ ws |})
  | answerArrives i answer o =>
      match inflight l !! i with
      | Some w =>
          let '(t, w') := untilFetch o 0 (inflight_resume w answer) in
          (map inflight_request (option_list w'),
           {| loop_state := applyCalls t (loop_state l);
              inflight := delete i (inflight l) ++ option_list w' |})
      | None => ([], l)
      end
  end.

Fixpoint runLoop (active : Context) (events : list LoopEvent) (l : Loop)
    : list FetchRequest * Loop :=
  match events with
  | [] => ([], l)
  | event :: rest =>
      let '(requests, l') := loopStep active l event in
      let '(requests', l'') := runLoop active rest l' in
      (requests ++ requests', l'')
  end.

(** Every answer that arrives carries the record of the job its request
    asked for. *)
Fixpoint answersEcho (active : Context) (events : list LoopEvent) (l : Loop) : Prop :=
  match events with
  | [] => True
  | event :: rest =>
      match event with
      | answerArrives i answer _ =>
          forall w response data,
            inflight l !! i = Some w -> answer = inr response ->
            resp_json response = inr data ->
            req_input (inflight_request w) = API_BASE_URL +:+ statusPath (jobId data)
      | intervalFires _ => True
      end
      /\ answersEcho active rest (loopStep active l event).2
  end.

End PollingLoop.

(** The suspended callback asked for the status of [id], and whatever the
    answer, it finishes without a further request and either leaves the job
    map alone or stores the answered record under [id]. *)
Definition awaits `{ImportMetaEnv} (id : string) (w : InFlight) : Prop :=
  req_input (inflight_request w) = API_BASE_URL +:+ statusPath id
  /\ req_kind (inflight_request w) = JobBody
  /\ req_init (inflight_request w) = emptyInit
  /\ forall o n answer,
       exists t, untilFetch o n (inflight_resume w answer) = (t, None)
         /\ forall st,
              jobs (applyCalls t st) = jobs st
              \/ exists response data now,
                   answer = inr response /\ resp_json response = inr data
                   /\ jobs (applyCalls t st) = <[id := withLastSyncedAt data now]> (jobs st).

(** The loop is in order: the map is keyed by [jobId] and every awaited
    answer belongs to a polling callback. *)
Definition loopGood `{ImportMetaEnv} (l : Loop) : Prop :=
  wellKeyed (jobs (loop_state l))
  /\ Forall (fun w => exists id, awaits id w) (inflight l).

(** No awaited answer is for the job [id]. *)
Definition notAwaited `{ImportMetaEnv} (id : string) (l : Loop) : Prop :=
  Forall (fun w => req_input (inflight_request w) <> API_BASE_URL +:+ statusPath id)
    (inflight l).

(** The addresses asked for when the interval fires in the state [st]. *)
Definition statusUrls `{ImportMetaEnv} (st : AppState) : list string :=
  map (fun id => API_BASE_URL +:+ statusPath id) (pendingJobIds (jobs st)).

(** Every awaited answer is for a job that has a record. *)
Definition awaitsKnown `{ImportMetaEnv} (l : Loop) : Prop :=
  Forall (fun w => exists id, awaits id w /\ is_Some (jobs (loop_state l) !! id)) (inflight l).

(** ** The job engine behind [POST /v1/download/initiate]

    The dashboard only calls the service.  The registry, the queue and the
    facade are written here after their description. *)

Module Engine.

(** Modelled from the spec: the configuration values the engine reads,
    [JOB_TTL_MS], [QUEUE_CAPACITY], [MAX_ATTEMPTS] and the polling hint. *)
Record Config : Type := {
  jobTtl : Z;
  queueCapacity : nat;
  maxAttempts : Z;
  nextPollInMs : Z
}.

(** Modelled from the spec: the body of an Initiate call,
    [{file_ids, clientRequestId?, userId?, priority?}]; the handler that
    reads it is not in the sources. *)
Record InitiateRequest : Type := {
  file_ids : list Z;
  clientRequestId : option string;
  userId : option string;
  priority : option string
}.

(** Modelled from the spec: the job record of section 3, without the
    result and error payloads; no declaration of it is in the sources. *)
Record JobRecord : Type := {
  jobId : string;
  fileIds : list Z;
  job_clientRequestId : option string;
  job_userId : option string;
  job_priority : Priority;
  status : DownloadJobStatus;
  progressPercent : Z;
  attempts : Z;
  createdAt : Z;
  startedAt : option Z;
  completedAt : option Z;
  expiresAt : Z
}.

(** Modelled from the spec: the idempotency key [(userId, clientRequestId)],
    there only when [clientRequestId] is non-empty. *)
Definition Key : Type := option string * string.



(** Modelled from the spec: the registry maps job identifiers to records and
    keeps the secondary index [(userId, clientRequestId) -> jobId]. *)
Record Registry : Type := {
  records : gmap string JobRecord;
  index : gmap Key string
}.



















(** Modelled from the spec: the legal edges of the state machine (I8). *)
Definition legal (cfg : Config) (r : JobRecord) (to : DownloadJobStatus) : bool :=
  match status r, to with
  | queued, (running | cancelled | expired) => true
  | running, (processing_artifacts | failed | cancelled | expired) => true
  | processing_artifacts, (completed | failed | cancelled | expired) => true
  | failed, queued => attempts r <? maxAttempts cfg
  | from, to' => bool_decide (from = to')
  end.

(** Modelled from the spec: the fields a mutator cannot touch: the identity of the job, its
    idempotency key and its expiry (I7). *)
Definition keepIdentity (r r' : JobRecord) : JobRecord :=
  {| jobId := jobId r; fileIds := fileIds r;
     job_clientRequestId := job_clientRequestId r; job_userId := job_userId r;
     job_priority := job_priority r; status := status r';
     progressPercent := progressPercent r'; attempts := attempts r';
     createdAt := createdAt r; startedAt := startedAt r';
     completedAt := completedAt r'; expiresAt := expiresAt r |}.

(** Modelled from the spec: [update(jobId, mutator)] applies the mutator to
    the record and rejects a mutation that leaves the state machine. *)
Definition update (cfg : Config) (id : string) (mutator : JobRecord -> JobRecord)
    (reg : Registry) : Registry :=
  match records reg !! id with
  | Some r =>
      let r' := keepIdentity r (mutator r) in
      if legal cfg r (status r') then
        {| records := <[id := r']> (records reg); index := index reg |}
      else reg
  | None => reg
  end.


(** Modelled from the spec: the operations of the engine, each at a
    wall-clock time. *)
Inductive Op : Type :=
| opInitiate (req : InitiateRequest)
| opSweep
| opUpdate (id : string) (mutator : JobRecord -> JobRecord)
| opCancel (id : string)
| opDequeue.




(** Modelled from the spec: the wall clock of the events never goes
    back. *)
Fixpoint timeOrdered (from : Z) (events : list (Z * Op)) : Prop :=
  match events with
  | [] => True
  | event :: rest => from <= event.1 /\ timeOrdered event.1 rest
  end.



End Engine.

(** ** A sample environment

    Concrete answers, for the runs that are evaluated below: every span is
    [sampleSpan], the propagator leaves the carrier as it is, clocks read 0
    and [fetch] is answered by [fetched], from the kind of body and the
    address. *)

Definition sampleSpan : Span := {| spanId := "span-1"; traceId := "trace-1" |}.

Definition answerObs (fetched : forall k, string -> JsError + Response k)
    (X : Type) (e : obsE X) : X :=
  match e in obsE X return X with
  | startSpan _ _ _ => sampleSpan
  | span_setAttribute _ _ _ => tt
  | span_setStatus _ _ _ => tt
  | span_recordException _ _ => tt
  | span_end _ => tt
  | propagation_inject _ carrier => carrier
  | performance_now => 0%Q
  | fetch k _ input _ _ => fetched k input
  | Sentry_captureException _ => tt
  | Sentry_captureMessage _ _ => tt
  | Sentry_showReportDialog => tt
  end.

Definition answerApp (X : Type) (e : appE X) : X :=
  match e in appE X return X with
  | crypto_randomUUID => "00000000-0000-4000-8000-000000000000"
  | Date_toISOString => "2025-01-01T00:00:00.000Z"
  | Date_now => 1735689600000
  | setState _ => tt
  | window_open _ _ => tt
  end.

Definition environment (fetched : forall k, string -> JsError + Response k) : oracle E :=
  fun X _ e =>
    match e with
    | inlE e' => answerObs fetched X e'
    | inrE e' => answerApp X e'
    end.

Definition sampleEnv : ImportMetaEnv :=
  {| VITE_API_BASE_URL := None; VITE_JAEGER_UI_URL := None;
     VITE_SENTRY_DSN := None; VITE_OTEL_EXPORTER_URL := None |}.

(** A response with the given status whose body is not JSON. *)
Definition plainResponse (status : Z) (k : BodyKind) : Response k :=
  {| resp_status := status; resp_text := inr "";
     resp_json := inl (ErrorObject "SyntaxError" "Unexpected end of JSON input") |}.

Definition noOptions : InstrumentedFetchOptions appE HealthBody :=
  {| spanName := None; parentSpan := None; onRecord := None; ignoreErrors := None |}.


Definition sampleJob (id : string) (st : DownloadJobStatus) (url : option string)
    : DownloadJob :=
  {| jobId := id; status := st; progressPercent := 0; message := "";
     attempts := 0; downloadUrl := url; checksum := None; size := None;
     retryAfterMs := None; fileIds := [Fin 70000]; priority := standard;
     userId := "observability-demo-user";
     createdAt := "2025-01-01T00:00:00.000Z"; startedAt := None; completedAt := None;
     expiresAt := "2025-01-01T01:00:00.000Z"; lastSyncedAt := 0 |}.

Definition jsonResponse (k : BodyKind) (status : Z) (data : payloadOf k) : Response k :=
  {| resp_status := status; resp_text := inr ""; resp_json := inr data |}.

Definition networkError : JsError := ErrorObject "TypeError" "Failed to fetch".

Definition samplePayload : InitiatePayload :=
  {| payload_jobId := "job-1"; payload_status := queued;
     payload_expiresAt := "2025-01-01T01:00:00.000Z"; payload_totalFileIds := 1 |}.

Definition sampleHealth : HealthPayload :=
  {| payload_health := healthy;
     payload_checks := Some {| checks_storage := storage_ok |} |}.

(** A health body without [checks], and a server that answers 200 with it. *)
Definition bareHealth : HealthPayload :=
  {| payload_health := healthy; payload_checks := None |}.

Definition bareHealthServer (k : BodyKind) (input : string) : JsError + Response k :=
  match k with
  | HealthBody => inr (jsonResponse HealthBody 200 bareHealth)
  | _ => inl networkError
  end.

(** A server that answers every request with the status 200 and a body that
    is not JSON. *)
Definition plainServer (k : BodyKind) (input : string) : JsError + Response k :=
  inr (plainResponse 200 k).

(** A server that accepts initiations as [job-1], is healthy, and knows the
    status of [job-2] only. *)
Definition sampleServer (k : BodyKind) (input : string) : JsError + Response k :=
  match k with
  | InitiateBody => inr (jsonResponse InitiateBody 202 samplePayload)
  | HealthBody => inr (jsonResponse HealthBody 200 sampleHealth)
  | JobBody =>
      if String.eqb input "http://localhost:3000/v1/download/status/job-2"
      then inr (jsonResponse JobBody 200 (sampleJob "job-2" completed (Some "https://s3/job-2")))
      else inl networkError
  end.

(** A server that answers every request with the status 503 and a text. *)
Definition unavailableServer (k : BodyKind) (input : string) : JsError + Response k :=
  inr {| resp_status := 503; resp_text := inr "storage unavailable";
         resp_json := inl (ErrorObject "SyntaxError" "Unexpected token s in JSON") |}.

(** No server answers: every [fetch] throws. *)
Definition offline (k : BodyKind) (input : string) : JsError + Response k :=
  inl networkError.

Definition sampleJobs : gmap string DownloadJob :=
  <["job-1" := sampleJob "job-1" completed (Some "https://s3/job-1")]>
    (<["job-2" := sampleJob "job-2" running None]> ∅).

Definition sampleState : AppState :=
  {| fileIdsInput := "70000, 71000, 72000"; jobs := sampleJobs; health := None;
     isSubmitting := false; initiateError := None; metrics := [];
     errorEvents := []; lastTraceId := None |}.

Definition answerFor (id : string) (st : DownloadJobStatus) : JsError + Response JobBody :=
  inr (jsonResponse JobBody 200 (sampleJob id st None)).

Definition sampleLoop : Loop := {| loop_state := sampleState; inflight := [] |}.

Definition sampleMetric (m e : string) (d : Q) (ok : bool) : RequestMetric :=
  {| metric_id := ""; endpoint := e; method := m; duration := d;
     metric_status := if ok then 200 else 500; success := ok;
     metric_timestamp := ""; metric_traceId := "" |}.




(** * Proofs *)

(** ** Runs *)

Lemma run_bind {E A B} (o : oracle E) (m : prog E A) (f : A -> prog E B) (n : nat) :
  run o n (bind m f) =
  let '(t1, a) := run o n m in
  let '(t2, b) := run o (n + length t1)%nat (f a) in
  (t1 ++ t2, b).
Proof.
  revert n. induction m as [a | X e k IH]; intros n; simpl.
  - rewrite Nat.add_0_r. destruct (run o n (f a)); reflexivity.
  - rewrite IH. destruct (run o (S n) (k (o X n e))) as [t1 a].
    simpl. rewrite Nat.add_succ_r.
    destruct (run o (S (n + length t1)) (f a)); reflexivity.
Qed.

(** ** [parseFileIds] *)

Lemma inRange_bounds (n : number) :
  inRange n = true <->
  exists q, n = Fin q /\ (inject_Z 10000 <= q)%Q /\ (q <= inject_Z 100000000)%Q.
Proof.
  unfold inRange, ge, le, ofZ. destruct n as [ | | | q]; simpl.
  1-3: split; [discriminate | intros (q & Hq & _); discriminate].
  rewrite andb_true_iff, !Qle_bool_iff. split.
  - intros [H1 H2]. exists q. auto.
  - intros (q' & Hq & H1 & H2). injection Hq as <-. auto.
Qed.

(** C1, as amended.  For every input, [parseFileIds] returns, in input order,
    the values of the tokens whose value is finite and lies between 10000 and
    100000000: it is an ordered subsequence of the token values, it keeps
    exactly the values in range, and every element is a finite number [q]
    with [10000 <= q <= 100000000].  Nothing makes [q] an integer. *)
Theorem parseFileIds_finite_in_range (input : string) :
  let values := map (fun token => Number (trim token)) (split input) in
  sublist (parseFileIds input) values
  /\ parseFileIds input = filter (fun num => inRange num = true) values
  /\ (forall num, num ∈ parseFileIds input <-> inRange num = true /\ num ∈ values)
  /\ Forall (fun num => exists q, num = Fin q
                /\ (inject_Z 10000 <= q)%Q /\ (q <= inject_Z 100000000)%Q)
       (parseFileIds input).
Proof.
  intros values. unfold parseFileIds. fold values.
  split; [| split; [| split]].
  - apply sublist_filter.
  - reflexivity.
  - intros num. rewrite list_elem_of_filter. reflexivity.
  - apply Forall_forall. intros num Hin.
    apply list_elem_of_filter in Hin. apply inRange_bounds. tauto.
Qed.

(** C1, counterexample.  The token [70000.5] is kept although it is not an
    integer, and the token [5] parses to a number and is dropped. *)
Lemma parseFileIds_keeps_fraction :
  parseFileIds "70000.5" = [Fin (140001 # 2)]
  /\ ~ Forall (fun num => isInteger num = true) (parseFileIds "70000.5")
  /\ Number (trim "5") = Fin 5 /\ parseFileIds "5" = [].
Proof.
  repeat split; try (vm_compute; reflexivity).
  intros Hall. apply Forall_inv in Hall. vm_compute in Hall. discriminate.
Qed.

(** ** [recordMetric] and [recordError] *)

(** C8.  After [recordMetric] the metrics list is the new entry followed by
    the first 29 of the previous ones, so it has at most 30 entries, the
    newest in front and the older ones in their order; after [recordError]
    the error list is the new event followed by the first 19 previous ones,
    so it has at most 20. *)
Theorem record_lists_bounded (o : oracle E) (n : nat) (st : AppState)
    (metric : MetricInput) (event : ErrorInput) :
  let st1 := applyCalls (run o n (liftR (recordMetric metric))).1 st in
  let st2 := applyCalls (run o n (liftR (recordError event))).1 st in
  ((length (metrics st1) <= 30)%nat
   /\ exists entry, metrics st1 = entry :: take 29 (metrics st)
        /\ endpoint entry = mi_endpoint metric /\ method entry = mi_method metric
        /\ duration entry = mi_duration metric /\ success entry = mi_success metric
        /\ metric_status entry = mi_status metric
        /\ metric_traceId entry = mi_traceId metric)
  /\ ((length (errorEvents st2) <= 20)%nat
      /\ exists entry, errorEvents st2 = entry :: take 19 (errorEvents st)
           /\ error_message entry = ei_message event
           /\ error_traceId entry = ei_traceId event
           /\ error_context entry = ei_context event).
Proof.
  simpl. split; split.
  - simpl. rewrite length_take. lia.
  - eexists. split; [reflexivity | simpl; tauto].
  - simpl. rewrite length_take. lia.
  - eexists. split; [reflexivity | simpl; tauto].
Qed.

(** ** [instrumentedFetch] *)

Lemma run_liftR {E F R} (o : oracle (sumE E F)) (m : prog F R) (n : nat) :
  run o n (liftR m) = (map liftCallR (run (oracleR o) n m).1, (run (oracleR o) n m).2).
Proof.
  revert n. induction m as [r | X f k IH]; intros n; simpl; [reflexivity |].
  rewrite IH. change (o X n (inrE f)) with (oracleR o X n f).
  destruct (run (oracleR o) (S n) (k (oracleR o X n f))); reflexivity.
Qed.

Section ReadingsOfLifted.
Context {C : Type -> Type}.

Lemma omap_lifted {A} (f : call (sumE obsE C) -> option A) (t : list (call C)) :
  (forall c, f (liftCallR c) = None) -> omap f (map liftCallR t) = [].
Proof.
  intros Hf. induction t as [| c t IH]; simpl; [reflexivity |].
  rewrite Hf. exact IH.
Qed.

End ReadingsOfLifted.



(** What [requestJson] hands to [instrumentedFetch] at its call sites: headers
    that [new Headers] accepts, an [onRecord] that completes normally, and
    the method [GET] or [POST]. *)
Lemma requestJson_call_sites `{ImportMetaEnv} (k : BodyKind) (init : option RequestInit)
    (label : string) :
  callSiteInit init ->
  let init' := default emptyInit init in
  (exists headers0, Headers_new (default [] (init_headers init')) = inr headers0)
  /\ neverThrows (Some (requestJson_onRecord (k := k) init' label))
  /\ recordedMethod (default "GET" (init_method init')).
Proof.
  intros Hinit init'. split; [| split].
  - destruct Hinit as [-> | (fileIds & uuid & ->)]; eexists; reflexivity.
  - intros f args o n [= <-]. reflexivity.
  - destruct Hinit as [-> | (fileIds & uuid & ->)]; [left | right]; reflexivity.
Qed.


(** ** The handlers of [App.tsx] *)

Section AppProofs.
Context `{ImportMetaEnv}.

(** What a run of [requestJson] does: its setters leave jobs, health,
    error message and submitting flag alone; when [new Headers] rejects the
    headers nothing is sent; otherwise one request goes to
    [API_BASE_URL ++ path] and the result is the parsed body of an ok
    response, an exception otherwise. *)
Lemma requestJson_run (k : BodyKind) (active : Context) (path : string)
    (init : option RequestInit) (spanName label : string) (o : oracle E) (n : nat) :
  let r := run o n (requestJson k active path init spanName label) in
  keepsCore r.1
  /\ match Headers_new (default [] (init_headers (default emptyInit init))) with
     | inl err => fetchRequests r.1 = [] /\ fetched k r.1 = [] /\ r.2 = inl err
     | inr _ =>
         exists m ctx headers,
           let answer :=
             o _ m (inlE (fetch k ctx (API_BASE_URL +:+ path)
                            (default emptyInit init) headers)) in
           fetchRequests r.1 =
             [{| req_kind := k; req_ctx := ctx; req_input := API_BASE_URL +:+ path;
                 req_init := default emptyInit init; req_headers := headers |}]
           /\ fetched k r.1 = [answer]
           /\ match answer with
              | inl err => r.2 = inl err
              | inr response =>
                  if ok response then r.2 = resp_json response
                  else exists err, r.2 = inl err
              end
     end.
Proof.
  unfold requestJson, instrumentedFetch, obs, trigger, bindE. cbn.
  destruct (Headers_new _) as [typeError | headers0]; cbn.
  { split; [intros st; auto | auto]. }
  unfold tryFinally, tryCatch, instrumentedFetch_try, instrumentedFetch_catch,
    requestJson_onRecord, recordMetric, recordError, captureFrontendError, showFeedbackDialog,
    bindE, obs, app, trigger, throw, mbind, prog_bind. cbn.
  destruct (o _ (S (S (S n))) _) as [err | response] eqn:Hanswer; cbn.
  - split; [intros st; auto |]. do 3 eexists. cbn zeta. rewrite Hanswer.
    split; [reflexivity |]. destruct k; cbn; split; reflexivity.
  - destruct (ok response) eqn:Hok; cbn.
    + destruct (resp_json response) as [err | data] eqn:Hjson; cbn.
      all: split; [intros st; cbn; auto |]; do 3 eexists; cbn zeta; rewrite Hanswer;
        (split; [reflexivity |]).
      all: destruct k; (split; [reflexivity |]); cbn beta iota; rewrite Hok; congruence.
    + destruct (resp_text response) as [err | text] eqn:Htext; cbn.
      2: unfold sentryDsn; destruct (truthy VITE_SENTRY_DSN); cbn.
      all: split; [intros st; cbn; auto |]; do 3 eexists; cbn zeta; rewrite Hanswer;
        (split; [reflexivity |]).
      all: destruct k; (split; [reflexivity |]); cbn beta iota; rewrite Hok; eauto.
Qed.

#[local] Arguments requestJson : simpl never.

Lemma applyCalls_app (t1 t2 : list (call E)) (st : AppState) :
  applyCalls (t1 ++ t2) st = applyCalls t2 (applyCalls t1 st).
Proof. apply fold_left_app. Qed.

(** Names the run of the [requestJson] in the goal and brings in what
    [requestJson_run] says of it. *)
Ltac request_run t r Hcore Hreq :=
  match goal with
  | |- context [@run ?E' ?R' ?o ?m (requestJson ?k ?a ?p ?i ?sn ?l)] =>
      let rr := fresh "rr" in
      pose proof (requestJson_run k a p i sn l o m) as Hreq;
      cbn zeta in Hreq;
      set (rr := run o m (requestJson k a p i sn l)) in Hreq;
      change (@run E' R' o m (requestJson k a p i sn l)) with rr;
      clearbody rr; destruct rr as [t r];
      destruct Hreq as [Hcore Hreq]
  end.

(** C4.  For a non-empty list of file identifiers, [handleDownloadInitiation]
    sends one request: [POST] to [API_BASE_URL/v1/download/initiate], with
    the content type of JSON and the body [{file_ids, clientRequestId,
    userId}] whose [file_ids] is the list as given, [clientRequestId] a fresh
    UUID and [userId] the demo user.  When the answer is an ok response
    whose body parses to a payload, the state then holds, under the returned
    [jobId], a record with that [jobId], the returned [status] and
    [expiresAt], [progressPercent = 0], [attempts = 0] and the submitted
    list as [fileIds]; the other entries of the map are as before. *)
Theorem handleDownloadInitiation_submits (o : oracle E) (n : nat) (active : Context)
    (fileId : number) (others : list number) (st : AppState) :
  let submitted := fileId :: others in
  let t := (run o n (handleDownloadInitiation active submitted)).1 in
  exists ctx headers uuid,
    fetchRequests t =
      [{| req_kind := InitiateBody; req_ctx := ctx;
          req_input := API_BASE_URL +:+ "/v1/download/initiate";
          req_init :=
            {| init_method := Some "POST";
               init_headers := Some [("Content-Type", "application/json")];
               init_body := Some {| file_ids := submitted; clientRequestId := uuid;
                                    request_userId := "observability-demo-user" |} |};
          req_headers := headers |}]
    /\ forall response payload,
         fetched InitiateBody t = [inr response] ->
         ok response = true ->
         resp_json response = inr payload ->
         exists job,
           jobs (applyCalls t st) !! payload_jobId payload = Some job
           /\ jobId job = payload_jobId payload
           /\ status job = payload_status payload
           /\ expiresAt job = payload_expiresAt payload
           /\ progressPercent job = 0
           /\ attempts job = 0
           /\ fileIds job = submitted
           /\ forall key, key <> payload_jobId payload ->
                jobs (applyCalls t st) !! key = jobs st !! key.
Proof.
  unfold handleDownloadInitiation, obs, app, trigger, mbind, prog_bind. cbn.
  set (uiSpan := o Span _ _). set (uuid := o string _ _).
  rewrite run_bind.
  request_run t1 r1 Hcore Hreq.
  change (Headers_new _) with (@inr JsError Headers [("Content-Type", "application/json")]) in Hreq.
  cbn in Hreq. destruct Hreq as (m & ctx & headers & Hrequests & Hfetched & Hanswer).
  rewrite run_bind.
  destruct r1 as [err | payload]; cbn.
  - unfold fetchRequests, fetched. cbn. rewrite !omap_app, Hrequests, Hfetched. cbn.
    exists ctx, headers, uuid. split; [reflexivity |].
    intros response payload [= Hans] Hok Hjson. rewrite Hans, Hok, Hjson in Hanswer. discriminate.
  - unfold fetchRequests, fetched. cbn. rewrite !omap_app, Hrequests, Hfetched. cbn.
    exists ctx, headers, uuid. split; [reflexivity |].
    intros response payload' [= Hans] Hok Hjson. rewrite Hans, Hok, Hjson in Hanswer.
    injection Hanswer as ->.
    eexists. rewrite !applyCalls_app. cbn.
    destruct (Hcore (applyUpdate (setIsSubmitting true) (applyUpdate (setInitiateError None) st))) as (Hjobs & _).
    cbn in Hjobs.
    split; [apply lookup_insert_eq |]. cbn. repeat split.
    intros key Hne. rewrite lookup_insert_ne by congruence.
    unfold applyCalls. rewrite Hjobs. reflexivity.
Qed.

(** C7, as amended.  [pollHealth] sends one [GET] to [API_BASE_URL/health]
    and the request is answered once.  When the response is ok, its body
    parses and the body has a [checks] object, the health state stored has
    the [status] of the body and the [storage] of its [checks], as they are.
    In every other case (the fetch throws, the response is not ok, the body
    does not parse, or the body has no [checks]) the health state is the one
    stored before. *)
Theorem pollHealth_stores (o : oracle E) (n : nat) (active : Context) (st : AppState) :
  let t := (run o n (pollHealth active)).1 in
  exists ctx headers answer,
    fetchRequests t =
      [{| req_kind := HealthBody; req_ctx := ctx; req_input := API_BASE_URL +:+ "/health";
          req_init := emptyInit; req_headers := headers |}]
    /\ fetched HealthBody t = [answer]
    /\ let unchanged := health (applyCalls t st) = health st in
       match answer with
       | inl _ => unchanged
       | inr response =>
           if ok response then
             match resp_json response with
             | inl _ => unchanged
             | inr data =>
                 match payload_checks data with
                 | None => unchanged
                 | Some checks =>
                     exists now,
                       health (applyCalls t st) =
                         Some {| health_status := payload_health data;
                                 health_storage := checks_storage checks;
                                 checkedAt := now |}
                 end
             end
           else unchanged
       end.
Proof.
  unfold pollHealth, requestJson, instrumentedFetch, obs, app, trigger, bindE, mbind,
    prog_bind.
  cbn.
  unfold tryFinally, tryCatch, instrumentedFetch_try, instrumentedFetch_catch,
    requestJson_onRecord, recordMetric, recordError, captureFrontendError,
    showFeedbackDialog, bindE, obs, app, trigger, throw, mbind, prog_bind.
  cbn.
  set (span := o Span n _). set (injected := o Headers _ _).
  exists (Some span), injected.
  destruct (o (JsError + Response HealthBody)%type _ _) as [err | response] eqn:Hanswer;
    cbn.
  { eexists. repeat split. }
  destruct (ok response) eqn:Hok; cbn.
  - destruct (resp_json response) as [err | data] eqn:Hjson; cbn.
    + eexists. split; [reflexivity |]. split; [reflexivity |]. cbn.
      rewrite Hok, Hjson. reflexivity.
    + destruct (payload_checks data) as [checks |] eqn:Hchecks; cbn.
      all: eexists; (split; [reflexivity |]); (split; [reflexivity |]); cbn.
      all: rewrite Hok, Hjson, Hchecks.
      * eexists. reflexivity.
      * reflexivity.
  - destruct (resp_text response) as [err | text]; cbn.
    2: unfold sentryDsn; destruct (truthy VITE_SENTRY_DSN); cbn.
    all: eexists; (split; [reflexivity |]); (split; [reflexivity |]); cbn.
    all: rewrite Hok; reflexivity.
Qed.

(** C3.  With an empty list, [handleDownloadInitiation] makes one call, the
    setter of the validation message: no request is sent, the job map is
    as before and the message is set.  [handleSubmit] on a text that
    parses to no identifier does exactly the same. *)
Theorem handleDownloadInitiation_empty (o : oracle E) (n : nat) (active : Context)
    (st : AppState) :
  let t := (run o n (handleDownloadInitiation active [])).1 in
  (exists x, t = [Call (inrE (setState (setInitiateError (Some "Please enter at least one file ID between 10,000 and 100,000,000.")))) x])
  /\ fetchRequests t = []
  /\ jobs (applyCalls t st) = jobs st
  /\ initiateError (applyCalls t st) = Some "Please enter at least one file ID between 10,000 and 100,000,000."
  /\ forall input, parseFileIds input = [] ->
       run o n (handleSubmit active input) = run o n (handleDownloadInitiation active []).
Proof.
  cbn. repeat split; eauto.
  intros input Hempty. unfold handleSubmit. rewrite Hempty. reflexivity.
Qed.

(** C6, as amended.  The Download button is shown for a job exactly when its
    status is [completed] and its [downloadUrl] is a non-empty string
    (neither [null] nor [""]); activating it opens
    [API_BASE_URL/v1/download/<jobId>?format=json] in a new tab and does
    nothing else. *)
Theorem download_action (job : DownloadJob) (o : oracle E) (n : nat) :
  (showsDownload job = true <->
     status job = completed /\ exists url, downloadUrl job = Some url /\ url <> "")
  /\ exists x,
       (run o n (handleDownload job)).1 =
         [Call (inrE (window_open
                   (API_BASE_URL +:+ "/v1/download/" +:+ jobId job +:+ "?format=json")
                   "_blank")) x].
Proof.
  split.
  - unfold showsDownload. rewrite andb_true_iff, bool_decide_eq_true.
    destruct (downloadUrl job) as [[| c url] |]; cbn; split.
    all: try (intros [_ Hd]; discriminate).
    all: try (intros [_ (url' & Hurl & Hne)]; congruence).
    + intros [Hs _]. eauto.
    + tauto.
  - eexists. reflexivity.
Qed.
(** ** The polling loop *)

Lemma wellKeyed_insert (jobs0 : gmap string DownloadJob) (id : string) (job : DownloadJob) :
  wellKeyed jobs0 -> jobId job = id -> wellKeyed (<[id := job]> jobs0).
Proof. intros Hwk Hid. apply map_Forall_insert_2; assumption. Qed.

Lemma elem_of_pendingJobIds (jobs0 : gmap string DownloadJob) (id : string) :
  id ∈ pendingJobIds jobs0 <->
  exists job, job ∈ Object_values jobs0 /\ jobId job = id /\ status job ∉ terminalStatuses.
Proof.
  unfold pendingJobIds. rewrite list_elem_of_In, in_map_iff. split.
  - intros (job & Hid & Hin). apply list_elem_of_In, list_elem_of_filter in Hin.
    destruct Hin as [Hterm Hin]. exists job. repeat split; try assumption.
    unfold isTerminal in Hterm. apply bool_decide_eq_false in Hterm. exact Hterm.
  - intros (job & Hin & Hid & Hterm). exists job. split; [exact Hid |].
    apply list_elem_of_In, list_elem_of_filter. split; [| exact Hin].
    unfold isTerminal. apply bool_decide_eq_false. exact Hterm.
Qed.

Lemma elem_of_Object_values (jobs0 : gmap string DownloadJob) (job : DownloadJob) :
  job ∈ Object_values jobs0 <-> exists key, jobs0 !! key = Some job.
Proof.
  unfold Object_values. rewrite list_elem_of_fmap. split.
  - intros ([key job'] & -> & Hin). exists key. apply elem_of_map_to_list. exact Hin.
  - intros (key & Hkey). exists (key, job). split; [reflexivity |].
    apply elem_of_map_to_list. exact Hkey.
Qed.

Lemma statusUrl_inj (id id' : string) :
  API_BASE_URL +:+ statusPath id = API_BASE_URL +:+ statusPath id' -> id = id'.
Proof.
  intros Heq. apply String.app_inj in Heq. unfold statusPath in Heq.
  apply String.app_inj in Heq. exact Heq.
Qed.

Lemma elem_of_statusUrls (pending : list string) (id : string) :
  (API_BASE_URL +:+ statusPath id) ∈ map (fun id => API_BASE_URL +:+ statusPath id) pending
  <-> id ∈ pending.
Proof.
  rewrite list_elem_of_In, in_map_iff. split.
  - intros (id' & Heq & Hin). apply statusUrl_inj in Heq. subst id'.
    apply list_elem_of_In. exact Hin.
  - intros Hin. exists id. split; [reflexivity |]. apply list_elem_of_In. exact Hin.
Qed.

Lemma terminal_not_pending (jobs0 : gmap string DownloadJob) (id : string) (job : DownloadJob) :
  wellKeyed jobs0 -> jobs0 !! id = Some job -> status job ∈ terminalStatuses ->
  id ∉ pendingJobIds jobs0.
Proof.
  intros Hwk Hjob Hterm Hin. apply elem_of_pendingJobIds in Hin.
  destruct Hin as (job' & Hvalues & Hid & Hnot).
  apply elem_of_Object_values in Hvalues. destruct Hvalues as [key Hkey].
  pose proof (Hwk key job' Hkey) as Hk. cbn in Hk. 
  assert (key = id) by congruence. subst key.
  assert (job' = job) by congruence. subst job'. contradiction.
Qed.

Lemma pollJob_suspends (o : oracle E) (n : nat) (active : Context) (id : string) :
  exists t w, untilFetch o n (pollJob active id) = (t, Some w)
    /\ (forall st, applyCalls t st = st)
    /\ awaits id w.
Proof.
  unfold pollJob, requestJson, instrumentedFetch, obs, trigger, bindE, mbind, prog_bind.
  cbn.
  do 2 eexists. split; [reflexivity |]. split; [reflexivity |].
  split; [reflexivity |]. split; [reflexivity |]. split; [reflexivity |].
  intros o' n' answer. cbn.
  unfold tryFinally, tryCatch, instrumentedFetch_try, instrumentedFetch_catch,
    requestJson_onRecord, recordMetric, recordError, captureFrontendError, showFeedbackDialog,
    bindE, obs, app, trigger, throw, mbind, prog_bind. cbn.
  destruct answer as [err | response]; cbn.
  - eexists. split; [reflexivity |]. intros st. left. reflexivity.
  - destruct (ok response) eqn:Hok; cbn.
    + destruct (resp_json response) as [err | data] eqn:Hjson; cbn.
      * eexists. split; [reflexivity |]. intros st. left. reflexivity.
      * eexists. split; [reflexivity |]. intros st. right.
        do 3 eexists. split; [reflexivity |]. split; [exact Hjson |]. reflexivity.
    + destruct (resp_text response) as [err | text] eqn:Htext; cbn.
      2: unfold sentryDsn; destruct (truthy VITE_SENTRY_DSN); cbn.
      all: eexists; (split; [reflexivity |]); intros st; left; reflexivity.
Qed.

#[local] Arguments pollJob : simpl never.

Lemma startAll_spec (o : oracle E) (active : Context) (pending : list string)
    (st : AppState) :
  (startAll o active pending st).1 = st
  /\ Forall2 awaits pending (startAll o active pending st).2.
Proof.
  revert st. induction pending as [| id rest IH]; intros st; cbn.
  { split; [reflexivity | constructor]. }
  destruct (pollJob_suspends o 0 active id) as (t & w & -> & Hsame & Hw).
  rewrite Hsame. specialize (IH st).
  destruct (startAll o active rest st) as [st' ws]. cbn in *.
  destruct IH as [-> IH]. split; [reflexivity |]. constructor; assumption.
Qed.

Lemma awaits_inj (id id' : string) (w : InFlight) : awaits id w -> awaits id' w -> id = id'.
Proof.
  intros (Hi & _) (Hi' & _). apply statusUrl_inj. congruence.
Qed.

Lemma loopStep_interval (active : Context) (l : Loop) (o : oracle E) :
  let r := loopStep active l (intervalFires o) in
  loop_state r.2 = loop_state l
  /\ exists ws, inflight r.2 = inflight l ++ ws /\ r.1 = map inflight_request ws
       /\ Forall2 awaits (pendingJobIds (jobs (loop_state l))) ws.
Proof.
  cbn. destruct (startAll_spec o active (pendingJobIds (jobs (loop_state l))) (loop_state l))
    as [Hst Hws].
  destruct (startAll o active _ _) as [st ws]. cbn in *. subst st.
  split; [reflexivity |]. exists ws. auto.
Qed.

Lemma loopStep_answer (active : Context) (l : Loop) (i : nat)
    (answer : JsError + Response JobBody) (o : oracle E) (w : InFlight) (id : string) :
  inflight l !! i = Some w -> awaits id w ->
  let r := loopStep active l (answerArrives i answer o) in
  r.1 = [] /\ inflight r.2 = delete i (inflight l)
  /\ (jobs (loop_state r.2) = jobs (loop_state l)
      \/ exists response data now,
           answer = inr response /\ resp_json response = inr data
           /\ jobs (loop_state r.2) = <[id := withLastSyncedAt data now]> (jobs (loop_state l))).
Proof.
  intros Hw (_ & _ & _ & Hresume). cbn. rewrite Hw.
  destruct (Hresume o 0%nat answer) as (t & -> & Hjobs). cbn.
  split; [reflexivity |]. split; [apply app_nil_r |]. apply Hjobs.
Qed.

Lemma loopGood_step (active : Context) (l : Loop) (event : LoopEvent) (rest : list LoopEvent) :
  loopGood l -> answersEcho active (event :: rest) l ->
  loopGood (loopStep active l event).2.
Proof.
  intros [Hwk Hws] [Hecho _]. destruct event as [o | i answer o].
  - destruct (loopStep_interval active l o) as (Hst & ws & Hin & _ & Hnew).
    cbn zeta in Hst, Hin. split.
    + rewrite Hst. exact Hwk.
    + rewrite Hin. apply Forall_app. split; [exact Hws |].
      clear -Hnew. induction Hnew; constructor; eauto.
  - destruct (inflight l !! i) as [w |] eqn:Hw.
    2: { cbn. rewrite Hw. split; assumption. }
    pose proof (Forall_lookup_1 _ _ _ _ Hws Hw) as [id Hid].
    destruct (loopStep_answer active l i answer o w id Hw Hid) as (_ & Hin & Hjobs).
    cbn zeta in Hin, Hjobs. split.
    + destruct Hjobs as [-> | (response & data & now & Hans & Hjson & ->)]; [exact Hwk |].
      apply wellKeyed_insert; [exact Hwk |]. cbn.
      specialize (Hecho w response data eq_refl Hans Hjson).
      destruct Hid as (Hurl & _). rewrite Hurl in Hecho.
      apply statusUrl_inj in Hecho. congruence.
    + rewrite Hin. apply Forall_delete. exact Hws.
Qed.

Lemma loop_step_terminal (active : Context) (l : Loop) (event : LoopEvent)
    (rest : list LoopEvent) (id : string) (job : DownloadJob) :
  loopGood l -> answersEcho active (event :: rest) l ->
  jobs (loop_state l) !! id = Some job -> status job ∈ terminalStatuses ->
  notAwaited id l ->
  let r := loopStep active l event in
  Forall (fun q => req_input q <> API_BASE_URL +:+ statusPath id) r.1
  /\ jobs (loop_state r.2) !! id = Some job
  /\ notAwaited id r.2.
Proof.
  intros [Hwk Hws] [Hecho _] Hjob Hterm Hnot. destruct event as [o | i answer o].
  - destruct (loopStep_interval active l o) as (Hst & ws & Hin & Hreq & Hnew).
    cbn zeta in *. rewrite Hst, Hreq.
    pose proof (terminal_not_pending _ _ _ Hwk Hjob Hterm) as Hpending.
    assert (Hfresh : Forall (fun w => req_input (inflight_request w)
                                      <> API_BASE_URL +:+ statusPath id) ws).
    { clear -Hnew Hpending. induction Hnew as [| id' w pending ws Hw _ IH]; [constructor |].
      apply not_elem_of_cons in Hpending. destruct Hpending as [Hne Hpending].
      constructor; [| apply IH, Hpending].
      destruct Hw as (-> & _). intros Heq. apply statusUrl_inj in Heq. congruence. }
    split; [| split].
    + apply Forall_fmap. exact Hfresh.
    + exact Hjob.
    + unfold notAwaited. rewrite Hin. apply Forall_app. split; assumption.
  - destruct (inflight l !! i) as [w |] eqn:Hw.
    2: { cbn. rewrite Hw. cbn. split; [constructor | split; assumption]. }
    pose proof (Forall_lookup_1 _ _ _ _ Hws Hw) as [id' Hid'].
    destruct (loopStep_answer active l i answer o w id' Hw Hid') as (Hreq & Hin & Hjobs).
    cbn zeta in *. rewrite Hreq. split; [constructor |]. split.
    + destruct Hjobs as [-> | (response & data & now & Hans & Hjson & ->)]; [exact Hjob |].
      rewrite lookup_insert_ne; [exact Hjob |].
      pose proof (Forall_lookup_1 _ _ _ _ Hnot Hw) as Hne. cbn in Hne.
      destruct Hid' as (Hurl & _). intros ->. contradiction.
    + unfold notAwaited. rewrite Hin. apply Forall_delete. exact Hnot.
Qed.

Lemma loopGood_run (active : Context) (events rest : list LoopEvent) (l : Loop) :
  loopGood l -> answersEcho active (events ++ rest) l ->
  loopGood (runLoop active events l).2
  /\ answersEcho active rest (runLoop active events l).2.
Proof.
  revert l. induction events as [| event events IH]; intros l Hgood Hecho; cbn.
  { split; assumption. }
  pose proof (loopGood_step active l event (events ++ rest) Hgood Hecho) as Hgood'.
  destruct Hecho as [_ Hecho].
  destruct (loopStep active l event) as [requests l']. cbn in *.
  specialize (IH l' Hgood' Hecho).
  destruct (runLoop active events l') as [requests' l'']. exact IH.
Qed.

Lemma loop_run_terminal (active : Context) (events : list LoopEvent) (l : Loop)
    (id : string) (job : DownloadJob) :
  loopGood l -> answersEcho active events l ->
  jobs (loop_state l) !! id = Some job -> status job ∈ terminalStatuses ->
  notAwaited id l ->
  Forall (fun q => req_input q <> API_BASE_URL +:+ statusPath id) (runLoop active events l).1
  /\ jobs (loop_state (runLoop active events l).2) !! id = Some job.
Proof.
  revert l. induction events as [| event events IH]; intros l Hgood Hecho Hjob Hterm Hnot; cbn.
  { split; [constructor | exact Hjob]. }
  pose proof (loopGood_step active l event events Hgood Hecho) as Hgood'.
  destruct (loop_step_terminal active l event events id job Hgood Hecho Hjob Hterm Hnot)
    as (Hreq & Hjob' & Hnot').
  destruct Hecho as [_ Hecho].
  destruct (loopStep active l event) as [requests l']. cbn in *.
  specialize (IH l' Hgood' Hecho Hjob' Hterm Hnot').
  destruct (runLoop active events l') as [requests' l'']. cbn in *.
  destruct IH as [IH1 IH2]. split; [| exact IH2]. apply Forall_app. split; assumption.
Qed.

Lemma interval_requests (active : Context) (l : Loop) (o : oracle E) :
  let requests := (loopStep active l (intervalFires o)).1 in
  map req_input requests =
    map (fun id => API_BASE_URL +:+ statusPath id) (pendingJobIds (jobs (loop_state l)))
  /\ Forall (fun q => req_kind q = JobBody /\ req_init q = emptyInit) requests.
Proof.
  destruct (loopStep_interval active l o) as (_ & ws & _ & Hreq & Hnew).
  cbn zeta in *. rewrite Hreq. clear Hreq.
  induction Hnew as [| id w pending ws Hw _ IH]; cbn.
  { split; [reflexivity | constructor]. }
  destruct IH as [IH1 IH2]. destruct Hw as (Hurl & Hkind & Hinit & _). split.
  - rewrite Hurl, IH1. reflexivity.
  - constructor; [split; assumption | exact IH2].
Qed.

(** C2, as amended.  The terminal statuses are [completed], [failed],
    [cancelled] and [expired].  When the interval fires, a status request is
    sent for [id] exactly when some record of the map with that [jobId] has a
    status outside the terminal ones, one [GET] per pending job and nothing
    else; in a map whose records sit under their own [jobId], that is
    exactly when the record under [id] is not terminal.  From a state where
    the record of a job is terminal and no answer for it is awaited, and
    with answers that carry the record of the job asked for, whatever the
    order of firings and arrivals, the status of that job is never
    requested and its record stays as it is. *)
Theorem polling_only_pending (active : Context) :
  (forall s, s ∈ terminalStatuses <->
             s = completed \/ s = failed \/ s = cancelled \/ s = expired)
  /\ (forall (l : Loop) (o : oracle E),
        let requests := (loopStep active l (intervalFires o)).1 in
        let jobs0 := jobs (loop_state l) in
        map req_input requests =
          map (fun id => API_BASE_URL +:+ statusPath id) (pendingJobIds jobs0)
        /\ Forall (fun q => req_kind q = JobBody /\ req_init q = emptyInit) requests
        /\ (forall id,
              (API_BASE_URL +:+ statusPath id) ∈ map req_input requests <->
              exists job, job ∈ Object_values jobs0 /\ jobId job = id
                          /\ status job ∉ terminalStatuses)
        /\ (wellKeyed jobs0 ->
            forall id,
              (API_BASE_URL +:+ statusPath id) ∈ map req_input requests <->
              exists job, jobs0 !! id = Some job /\ status job ∉ terminalStatuses))
  /\ (forall (st : AppState) (earlier later : list LoopEvent) (id : string)
        (job : DownloadJob),
        let l0 := {| loop_state := st; inflight := [] |} in
        let l1 := (runLoop active earlier l0).2 in
        wellKeyed (jobs st) ->
        answersEcho active (earlier ++ later) l0 ->
        jobs (loop_state l1) !! id = Some job ->
        status job ∈ terminalStatuses ->
        notAwaited id l1 ->
        Forall (fun q => req_input q <> API_BASE_URL +:+ statusPath id)
          (runLoop active later l1).1
        /\ jobs (loop_state (runLoop active later l1).2) !! id = Some job).
Proof.
  split; [| split].
  - intros s. unfold terminalStatuses. rewrite !elem_of_cons, elem_of_nil. tauto.
  - intros l o requests jobs0.
    destruct (interval_requests active l o) as [Hinputs Hkinds].
    fold requests in Hinputs, Hkinds. fold jobs0 in Hinputs.
    split; [exact Hinputs |]. split; [exact Hkinds |]. split.
    + intros id. rewrite Hinputs, elem_of_statusUrls. apply elem_of_pendingJobIds.
    + intros Hwk id. rewrite Hinputs, elem_of_statusUrls, elem_of_pendingJobIds. split.
      * intros (job & Hvalues & Hid & Hnot). exists job. split; [| exact Hnot].
        apply elem_of_Object_values in Hvalues. destruct Hvalues as [key Hkey].
        pose proof (Hwk key job Hkey) as Hk. cbn in Hk. congruence.
      * intros (job & Hjob & Hnot). exists job. split; [| split].
        -- apply elem_of_Object_values. eauto.
        -- exact (Hwk id job Hjob).
        -- exact Hnot.
  - intros st earlier later id job l0 l1 Hwk Hecho Hjob Hterm Hnot.
    assert (Hgood0 : loopGood l0) by (split; [exact Hwk | constructor]).
    destruct (loopGood_run active earlier later l0 Hgood0 Hecho) as [Hgood1 Hecho1].
    apply loop_run_terminal; assumption.
Qed.
End AppProofs.

(** *** The handlers, run against the sample server *)

(** C3, witness: the text [abc, 12] parses to no file identifier, and
    submitting it runs as the empty initiation does. *)
Lemma handleDownloadInitiation_empty_witness :
  run (environment sampleServer) 0 (handleSubmit (H := sampleEnv) None "abc, 12") =
  run (environment sampleServer) 0 (handleDownloadInitiation (H := sampleEnv) None []).
Proof.
  apply (handleDownloadInitiation_empty (H := sampleEnv) (environment sampleServer) 0 None initialState).
  vm_compute. reflexivity.
Defined.

(** C4, witness: against the sample server the initiation of [[70000]] leaves
    the job [job-1], queued, with the submitted list. *)
Lemma handleDownloadInitiation_submits_witness :
  exists job,
    jobs (applyCalls (run (environment sampleServer) 0
            (handleDownloadInitiation (H := sampleEnv) None [Fin 70000])).1 initialState)
      !! "job-1" = Some job
    /\ status job = queued /\ fileIds job = [Fin 70000].
Proof.
  destruct (handleDownloadInitiation_submits (H := sampleEnv) (environment sampleServer) 0 None
              (Fin 70000) [] initialState) as (ctx & headers & uuid & _ & Hstored).
  destruct (Hstored (jsonResponse InitiateBody 202 samplePayload) samplePayload
              eq_refl eq_refl eq_refl) as (job & Hjob & _ & Hstatus & _ & _ & _ & Hids & _).
  exists job. split; [exact Hjob |]. split; [exact Hstatus | exact Hids].
Defined.

(** C7, counterexample: the server answers 200 with the
    body [{"status": "healthy"}], which has no [checks]; the response is
    successful and its body parses, and no health state is stored.  Nor is
    one stored for a 200 whose body is not JSON. *)
Lemma pollHealth_stores_nothing_without_checks :
  let stored (server : forall k, string -> JsError + Response k) :=
    health (applyCalls (run (environment server) 0 (pollHealth (H := sampleEnv) None)).1
              initialState) in
  let answered (server : forall k, string -> JsError + Response k) :=
    fetched HealthBody (run (environment server) 0 (pollHealth (H := sampleEnv) None)).1 in
  (answered bareHealthServer = [inr (jsonResponse HealthBody 200 bareHealth)]
   /\ ok (jsonResponse HealthBody 200 bareHealth) = true
   /\ resp_json (jsonResponse HealthBody 200 bareHealth) = inr bareHealth
   /\ stored bareHealthServer = None)
  /\ (answered plainServer = [inr (plainResponse 200 HealthBody)]
      /\ ok (plainResponse 200 HealthBody) = true
      /\ stored plainServer = None).
Proof. cbn zeta. repeat split. Qed.

Lemma sampleJobs_wellKeyed : wellKeyed sampleJobs.
Proof.
  unfold sampleJobs. apply map_Forall_insert_2; [reflexivity |].
  apply map_Forall_insert_2; [reflexivity |]. apply map_Forall_empty.
Qed.

(** C2, witness: the interval fires, the answer for [job-2] arrives, the
    interval fires again; the status of the completed [job-1] is never
    requested and its record stays as it was. *)
Lemma polling_only_pending_witness :
  let env := environment sampleServer in
  let later := [intervalFires env; answerArrives 0 (answerFor "job-2" completed) env;
                intervalFires env] in
  Forall (fun q => req_input q <> "http://localhost:3000/v1/download/status/job-1")
    (runLoop (H := sampleEnv) None later sampleLoop).1
  /\ jobs (loop_state (runLoop (H := sampleEnv) None later sampleLoop).2) !! "job-1"
     = Some (sampleJob "job-1" completed (Some "https://s3/job-1")).
Proof.
  intros env later.
  apply (proj2 (proj2 (polling_only_pending (H := sampleEnv) None)) sampleState [] later "job-1").
  - exact sampleJobs_wellKeyed.
  - cbn [app]. unfold later. cbn [answersEcho]. repeat split.
    intros w response data Hw [= <-] [= <-]. vm_compute in Hw. injection Hw as <-. 
    reflexivity.
  - reflexivity.
  - apply elem_of_cons. left. reflexivity.
  - constructor.
Defined.

(** C2, counterexample: the interval fires twice before any answer; the
    second answer says [completed] and makes [job-2] terminal; the first
    answer, which says [running], arrives after it; at the next firing the
    status of [job-2] is requested again. *)
Lemma polling_resumes_after_late_answer :
  let env := environment sampleServer in
  let l3 := (runLoop (H := sampleEnv) None
               [intervalFires env; intervalFires env;
                answerArrives 1 (answerFor "job-2" completed) env] sampleLoop).2 in
  let late := [answerArrives 0 (answerFor "job-2" running) env; intervalFires env] in
  (exists job, jobs (loop_state l3) !! "job-2" = Some job /\ status job = completed
               /\ status job ∈ terminalStatuses)
  /\ map req_input (runLoop (H := sampleEnv) None late l3).1
     = ["http://localhost:3000/v1/download/status/job-2"].
Proof.
  cbv zeta. split.
  - eexists. split; [vm_compute; reflexivity |]. split; [reflexivity |].
    apply elem_of_cons. left. reflexivity.
  - vm_compute. reflexivity.
Qed.

(** C6, counterexample: a completed job whose [downloadUrl] is the empty
    string, which is not [null], shows no Download button. *)
Lemma download_hidden_for_empty_url :
  let job := sampleJob "job-1" completed (Some "") in
  status job = completed /\ downloadUrl job <> None /\ showsDownload job = false.
Proof. repeat split. discriminate. Qed.

(** ** [metricsSummary] *)

Lemma Map_get_set_eq {V} (key : string) (v : V) (m : list (string * V)) :
  Map_get key (Map_set key v m) = Some v.
Proof.
  induction m as [| [k x] m IH]; cbn.
  - rewrite String.eqb_refl. reflexivity.
  - destruct (String.eqb k key) eqn:Hk; cbn; rewrite Hk; [reflexivity | exact IH].
Qed.

Lemma Map_get_set_ne {V} (key key' : string) (v : V) (m : list (string * V)) :
  key <> key' -> Map_get key' (Map_set key v m) = Map_get key' m.
Proof.
  intros Hne. induction m as [| [k x] m IH]; cbn.
  - destruct (String.eqb key key') eqn:Hk; [| reflexivity].
    apply String.eqb_eq in Hk. contradiction.
  - destruct (String.eqb k key) eqn:Hk; cbn.
    + apply String.eqb_eq in Hk. subst k.
      destruct (String.eqb key key') eqn:Hk'; [| reflexivity].
      apply String.eqb_eq in Hk'. contradiction.
    + rewrite IH. reflexivity.
Qed.

Lemma Map_get_None {V} (key : string) (m : list (string * V)) :
  Map_get key m = None <-> key ∉ map fst m.
Proof.
  induction m as [| [k x] m IH]; cbn.
  - split; [intros _; apply not_elem_of_nil | reflexivity].
  - rewrite not_elem_of_cons. destruct (String.eqb k key) eqn:Hk.
    + apply String.eqb_eq in Hk. split; [discriminate | intros [Hne _]; congruence].
    + apply String.eqb_neq in Hk. rewrite IH. split; [intros Hm; split; congruence | tauto].
Qed.

Lemma Map_set_keys {V} (key : string) (v : V) (m : list (string * V)) :
  map fst (Map_set key v m) =
  match Map_get key m with Some _ => map fst m | None => map fst m ++ [key] end.
Proof.
  induction m as [| [k x] m IH]; cbn; [reflexivity |].
  destruct (String.eqb k key) eqn:Hk; cbn; [reflexivity |].
  rewrite IH. destruct (Map_get key m); reflexivity.
Qed.

Lemma Map_get_elem_of {V} (key : string) (v : V) (m : list (string * V)) :
  NoDup (map fst m) -> (key, v) ∈ m -> Map_get key m = Some v.
Proof.
  induction m as [| [k x] m IH]; cbn; intros Hnd Hin.
  - apply elem_of_nil in Hin. contradiction.
  - apply NoDup_cons in Hnd. destruct Hnd as [Hk Hnd].
    apply elem_of_cons in Hin. destruct Hin as [[= -> ->] | Hin].
    + rewrite String.eqb_refl. reflexivity.
    + destruct (String.eqb k key) eqn:Hkk; [| auto].
      apply String.eqb_eq in Hkk. subst k. exfalso. apply Hk.
      apply list_elem_of_fmap. exists (key, v). auto.
Qed.

Lemma Map_get_Some_elem_of {V} (key : string) (v : V) (m : list (string * V)) :
  Map_get key m = Some v -> (key, v) ∈ m.
Proof.
  induction m as [| [k x] m IH]; cbn; [discriminate |].
  destruct (String.eqb k key) eqn:Hk.
  - apply String.eqb_eq in Hk. intros [= ->]. subst. left.
  - intros Hm. right. auto.
Qed.

Lemma keyGroup_snoc (key : string) (done : list RequestMetric) (m : RequestMetric) :
  keyGroup key (done ++ [m]) =
  if decide (metricKey m = key) then keyGroup key done ++ [m] else keyGroup key done.
Proof.
  unfold keyGroup. rewrite filter_app, filter_cons, filter_nil.
  destruct (decide (metricKey m = key)); [reflexivity | apply app_nil_r].
Qed.

Lemma sumDurations_snoc (group : list RequestMetric) (m : RequestMetric) :
  (sumDurations (group ++ [m]) == sumDurations group + duration m)%Q.
Proof.
  unfold sumDurations.
  induction group as [| x group IH]; simpl.
  - ring.
  - rewrite IH. ring.
Qed.

Lemma rowFor_new (m : RequestMetric) :
  rowFor [m]
    {| row_endpoint := endpoint m; row_method := method m;
       avg := (0 + (duration m - 0) / inject_Z (0 + 1))%Q; count := 0 + 1;
       successCount := if success m then 0 + 1 else 0 |}.
Proof.
  unfold rowFor, successes. rewrite filter_cons, filter_nil. cbn. repeat split.
  - destruct (success m); reflexivity.
  - change (inject_Z (0 + 1)) with 1%Q. field.
  - eauto.
Qed.

Lemma rowFor_step (group : list RequestMetric) (row : SummaryRow) (m : RequestMetric) :
  rowFor group row ->
  rowFor (group ++ [m])
    {| row_endpoint := row_endpoint row; row_method := row_method row;
       avg := (avg row + (duration m - avg row) / inject_Z (count row + 1))%Q;
       count := count row + 1;
       successCount := if success m then successCount row + 1 else successCount row |}.
Proof.
  intros (Hcount & Hsucc & Havg & first & rest & Hgroup & Hmethod & Hendpoint).
  unfold rowFor. cbn [count successCount avg row_method row_endpoint]. repeat split.
  - rewrite length_app, Nat2Z.inj_add. change (Z.of_nat (length [m])) with 1. lia.
  - unfold successes in *. rewrite filter_app, length_app, Nat2Z.inj_add, filter_cons, filter_nil.
    destruct (success m); simpl; lia.
  - rewrite sumDurations_snoc, <- Havg, inject_Z_plus.
    assert (Hpos : ~ (inject_Z (count row) + inject_Z 1 == 0)%Q).
    { rewrite <- inject_Z_plus. change 0%Q with (inject_Z 0). rewrite inject_Z_injective. lia. }
    field. exact Hpos.
  - exists first, (rest ++ [m]). rewrite Hgroup. auto.
Qed.

Lemma summaryFor_nil : summaryFor [] [].
Proof. split; [constructor | intros key; reflexivity]. Qed.

Lemma summaryFor_step (done : list RequestMetric) (summary : list (string * SummaryRow))
    (m : RequestMetric) :
  summaryFor done summary -> summaryFor (done ++ [m]) (summaryStep summary m).
Proof.
  intros [Hnd Hrows]. unfold summaryStep. split.
  - rewrite Map_set_keys. destruct (Map_get (metricKey m) summary) eqn:Hget; [exact Hnd |].
    apply NoDup_app. split; [exact Hnd |]. split; [| apply NoDup_singleton].
    intros key Hin Hkey. apply list_elem_of_singleton in Hkey. subst key.
    apply Map_get_None in Hget. contradiction.
  - intros key. rewrite keyGroup_snoc. destruct (decide (metricKey m = key)) as [<- | Hne].
    + rewrite Map_get_set_eq. specialize (Hrows (metricKey m)).
      destruct (Map_get (metricKey m) summary) as [row |]; cbn [default].
      * apply rowFor_step. exact Hrows.
      * rewrite Hrows. apply rowFor_new.
    + rewrite Map_get_set_ne by exact Hne. apply Hrows.
Qed.

Lemma summaryFor_fold (metrics done : list RequestMetric)
    (summary : list (string * SummaryRow)) :
  summaryFor done summary ->
  summaryFor (done ++ metrics) (fold_left summaryStep metrics summary).
Proof.
  revert done summary. induction metrics as [| m metrics IH]; intros done summary Hinv; cbn.
  - rewrite app_nil_r. exact Hinv.
  - replace (done ++ m :: metrics) with ((done ++ [m]) ++ metrics)
      by (rewrite <- app_assoc; reflexivity).
    apply IH, summaryFor_step, Hinv.
Qed.

Lemma rowFor_key (group : list RequestMetric) (key : string) (row : SummaryRow) :
  (forall m, m ∈ group -> metricKey m = key) -> rowFor group row -> rowKey row = key.
Proof.
  intros Hkey (_ & _ & _ & first & rest & -> & Hm & He).
  unfold rowKey. rewrite Hm, He. apply Hkey. left.
Qed.

Lemma keyGroup_key (key : string) (metrics : list RequestMetric) (m : RequestMetric) :
  m ∈ keyGroup key metrics -> metricKey m = key.
Proof. unfold keyGroup. rewrite list_elem_of_filter. tauto. Qed.

Lemma rowFor_mean (group : list RequestMetric) (row : SummaryRow) :
  rowFor group row ->
  group <> [] /\ count row = Z.of_nat (length group)
  /\ successCount row = Z.of_nat (length (successes group))
  /\ (avg row == mean group)%Q.
Proof.
  intros (Hcount & Hsucc & Havg & first & rest & Hgroup & _).
  split; [rewrite Hgroup; discriminate |]. split; [exact Hcount |]. split; [exact Hsucc |].
  unfold mean. rewrite <- Havg, Hcount.
  assert (Hpos : ~ (inject_Z (Z.of_nat (length group)) == 0)%Q).
  { change 0%Q with (inject_Z 0). rewrite inject_Z_injective, Hgroup. cbn [length]. lia. }
  field. exact Hpos.
Qed.

Lemma metricsSummary_by_key (metrics : list RequestMetric) :
  let rows := metricsSummary metrics in
  NoDup (map rowKey rows)
  /\ (forall m, m ∈ metrics -> exists row, row ∈ rows /\ rowKey row = metricKey m)
  /\ forall row, row ∈ rows -> rowFor (keyGroup (rowKey row) metrics) row.
Proof.
  pose proof (summaryFor_fold metrics [] [] summaryFor_nil) as Hinv.
  rewrite app_nil_l in Hinv. destruct Hinv as [Hnd Hrows].
  unfold metricsSummary, Map_values.
  set (summary := fold_left summaryStep metrics []) in *.
  assert (Hentry : forall key row, (key, row) ∈ summary ->
            rowFor (keyGroup key metrics) row /\ rowKey row = key).
  { intros key row Hin. apply Map_get_elem_of in Hin; [| exact Hnd].
    specialize (Hrows key). rewrite Hin in Hrows. split; [exact Hrows |].
    eapply rowFor_key; [| exact Hrows]. intros m. apply keyGroup_key. }
  split; [| split].
  - assert (Heq : map rowKey (map snd summary) = map fst summary).
    { rewrite map_map. apply map_ext_in. intros [key row] Hin. cbn.
      apply (Hentry key row). apply list_elem_of_In. exact Hin. }
    rewrite Heq. exact Hnd.
  - intros m Hm. specialize (Hrows (metricKey m)).
    destruct (Map_get (metricKey m) summary) as [row |] eqn:Hget.
    + exists row. apply Map_get_Some_elem_of in Hget. split.
      * apply list_elem_of_fmap. exists (metricKey m, row). auto.
      * apply (Hentry _ _ Hget).
    + exfalso. assert (Hin : m ∈ keyGroup (metricKey m) metrics).
      { unfold keyGroup. apply list_elem_of_filter. auto. }
      rewrite Hrows in Hin. apply elem_of_nil in Hin. exact Hin.
  - intros row Hrow. apply list_elem_of_fmap in Hrow. destruct Hrow as ([key row'] & -> & Hin).
    cbn. destruct (Hentry key row' Hin) as [Hfor Hkey]. rewrite Hkey. exact Hfor.
Qed.

Lemma append_String (c : ascii) (s t : string) : String c s +:+ t = String c (s +:+ t).
Proof. reflexivity. Qed.

Lemma append_empty (t : string) : "" +:+ t = t.
Proof. reflexivity. Qed.

Lemma key_inj (a b a' b' : string) :
  noSpace a -> noSpace a' ->
  a +:+ " " +:+ b = a' +:+ " " +:+ b' -> a = a' /\ b = b'.
Proof.
  unfold noSpace.
  revert a'. induction a as [| c a IH]; intros [| c' a'] Ha Ha' Heq;
    rewrite ?append_String, ?append_empty in Heq; cbn in Ha, Ha'.
  - injection Heq as ->. auto.
  - injection Heq as <- _. discriminate.
  - injection Heq as -> _. discriminate.
  - injection Heq as -> Heq. apply andb_true_iff in Ha, Ha'.
    destruct (IH a') as [-> ->]; tauto.
Qed.

Lemma keyGroup_pairGroup (metrics : list RequestMetric) (method' endpoint' : string) :
  (forall m, m ∈ metrics -> noSpace (method m)) ->
  noSpace method' ->
  keyGroup (method' +:+ " " +:+ endpoint') metrics = pairGroup method' endpoint' metrics.
Proof.
  intros Hns Hm. unfold keyGroup, pairGroup.
  induction metrics as [| x metrics IH]; [reflexivity |].
  rewrite !filter_cons, IH.
  2: { intros m Hin. apply Hns. right. exact Hin. }
  destruct (decide (metricKey x = _)) as [Hkey | Hkey];
    destruct (decide (_ /\ _)) as [Hpair | Hpair]; try reflexivity; exfalso.
  - apply Hpair. apply key_inj; [apply Hns; left | exact Hm | exact Hkey].
  - apply Hkey. destruct Hpair as [<- <-]. reflexivity.
Qed.

Lemma recordedMethod_noSpace (m : string) : recordedMethod m -> noSpace m.
Proof. intros [-> | ->]; reflexivity. Qed.

Ltac unfold_handlers :=
  unfold pollHealth, pollJob, hydrateJob, handleDownloadInitiation, requestJson,
    instrumentedFetch, initiateInit, obs, app, trigger, bindE, mbind, prog_bind;
  cbn [init_headers default];
  try change (Headers_new _)
    with (@inr JsError Headers [("Content-Type", "application/json")]);
  cbn;
  unfold tryFinally, tryCatch, instrumentedFetch_try, instrumentedFetch_catch,
    requestJson_onRecord, recordMetric, recordError, captureFrontendError,
    showFeedbackDialog, bindE, obs, app, trigger, throw, mbind, prog_bind; cbn.

Ltac recorded_cases o k :=
  destruct (o (JsError + Response k)%type _ _) as [err | response]; cbn;
  [ | destruct (ok response); cbn;
      [ destruct (resp_json response) as [err | data]; cbn
      | destruct (resp_text response) as [err | text]; cbn;
        [ | unfold sentryDsn; destruct (truthy VITE_SENTRY_DSN); cbn ] ] ].

Ltac recorded_done Hst :=
  first [ exact Hst
        | apply Forall_cons; split; [cbn; unfold recordedMethod; auto |];
          apply Forall_take; exact Hst ].

(** The metrics list only ever holds the methods [GET] and [POST]: it starts
    empty, and every callback of the component that sends a request (the
    health check, an initiation, from the form or from Retry, a status poll,
    a hydration) records at most one metric, with one of the two. *)
Lemma handlers_record_get_or_post `{ImportMetaEnv} (o : oracle E) (n : nat)
    (active : Context) (st : AppState) :
  recordedMethods initialState
  /\ (recordedMethods st ->
      let after (p : prog E unit) := recordedMethods (applyCalls (run o n p).1 st) in
      after (pollHealth active)
      /\ (forall fileIds, after (handleDownloadInitiation active fileIds))
      /\ (forall id, after (pollJob active id))
      /\ (forall id, after (hydrateJob active id))
      /\ (forall job, after (handleDownload job))).
Proof.
  split; [constructor |].
  intros Hst after. unfold after, recordedMethods in *. clear after. repeat split.
  - unfold_handlers. recorded_cases o HealthBody.
    3: destruct (payload_checks data); cbn.
    all: recorded_done Hst.
  - intros [| fileId others]; [exact Hst |].
    unfold_handlers. recorded_cases o InitiateBody.
    all: recorded_done Hst.
  - intros id. unfold_handlers. recorded_cases o JobBody. all: recorded_done Hst.
  - intros id. unfold_handlers. recorded_cases o JobBody. all: recorded_done Hst.
  - intros job. exact Hst.
Qed.

(** C9.  The metrics are those the component can hold: their methods are
    [GET] and [POST] ([handlers_record_get_or_post]), of which the theorem
    uses that they contain no space.  The summary has one row for each pair
    of method and endpoint among the metrics, and the row of a pair has for
    [count] the number of metrics of the pair, for [successCount] the number
    of those that succeeded and for [avg], in exact arithmetic, the mean of
    their durations. *)
Theorem metricsSummary_rows (metrics : list RequestMetric) :
  (forall m, m ∈ metrics -> noSpace (method m)) ->
  let rows := metricsSummary metrics in
  NoDup (map (fun row => (row_method row, row_endpoint row)) rows)
  /\ (forall m, m ∈ metrics ->
        exists row, row ∈ rows /\ row_method row = method m
                    /\ row_endpoint row = endpoint m)
  /\ forall row, row ∈ rows ->
       let group := pairGroup (row_method row) (row_endpoint row) metrics in
       group <> [] /\ count row = Z.of_nat (length group)
       /\ successCount row = Z.of_nat (length (successes group))
       /\ (avg row == mean group)%Q.
Proof.
  intros Hns rows. destruct (metricsSummary_by_key metrics) as (Hnd & Hall & Hrows).
  fold rows in Hnd, Hall, Hrows.
  assert (Hrm : forall row, row ∈ rows -> noSpace (row_method row)).
  { intros row Hrow. destruct (Hrows row Hrow) as (_ & _ & _ & first & rest & Hg & -> & _).
    apply Hns. assert (Hin : first ∈ keyGroup (rowKey row) metrics) by (rewrite Hg; left).
    unfold keyGroup in Hin. apply list_elem_of_filter in Hin. tauto. }
  split; [| split].
  - clear Hall Hrows. induction rows as [| row rows' IH]; [constructor |].
    cbn in Hnd |- *. apply NoDup_cons in Hnd. destruct Hnd as [Hnot Hnd].
    apply NoDup_cons. split.
    + intros Hin. apply Hnot. apply list_elem_of_fmap in Hin.
      destruct Hin as (row' & [= Hm He] & Hin).
      apply list_elem_of_fmap. exists row'. split; [| exact Hin].
      unfold rowKey. rewrite Hm, He. reflexivity.
    + apply IH; [exact Hnd |]. intros r Hr. apply Hrm. right. exact Hr.
  - intros m Hm. destruct (Hall m Hm) as (row & Hrow & Hkey).
    exists row. split; [exact Hrow |].
    apply key_inj; [apply Hrm, Hrow | apply Hns, Hm | exact Hkey].
  - intros row Hrow.
    rewrite <- (keyGroup_pairGroup metrics _ _ Hns (Hrm row Hrow)).
    apply rowFor_mean, Hrows, Hrow.
Qed.

(** C9, witness: three recorded metrics, two of them for [GET health]. *)
Lemma metricsSummary_rows_witness :
  let metrics := [sampleMetric "GET" "health" 4 true; sampleMetric "POST" "initiate" 9 true;
                  sampleMetric "GET" "health" 8 false] in
  Forall (fun m => recordedMethod (method m)) metrics
  /\ Forall (fun row =>
        let group := pairGroup (row_method row) (row_endpoint row) metrics in
        group <> [] /\ count row = Z.of_nat (length group)
        /\ successCount row = Z.of_nat (length (successes group))
        /\ (avg row == mean group)%Q)
       (metricsSummary metrics).
Proof.
  intros metrics.
  assert (Hmethods : Forall (fun m => recordedMethod (method m)) metrics).
  { unfold metrics.
    repeat (apply Forall_cons; split; [first [left; reflexivity | right; reflexivity] |]).
    apply Forall_nil. constructor. }
  split; [exact Hmethods |].
  apply Forall_forall.
  apply (metricsSummary_rows metrics).
  intros m Hm. apply recordedMethod_noSpace.
  revert m Hm. apply Forall_forall. exact Hmethods.
Defined.

(** ** The job engine: idempotent initiation *)

Section EngineProofs.
Import Engine.




















Lemma timeOrdered_le (events : list (Z * Op)) (from : Z) :
  timeOrdered from events -> Forall (fun event => from <= event.1) events.
Proof.
  revert from. induction events as [| event events IH]; intros from Hord; [constructor |].
  destruct Hord as [Hfrom Hord]. constructor; [exact Hfrom |].
  eapply Forall_impl; [apply IH, Hord |]. cbn. intros ev Hev. lia.
Qed.





End EngineProofs.

(** * Further properties of the dashboard *)

(** ** [parseFileIds]: separators and decimal identifiers *)

Lemma append_nil_r (s : string) : s +:+ "" = s.
Proof. induction s as [| c s IH]; [reflexivity |]. rewrite append_String, IH. reflexivity. Qed.

Lemma idsOf_app (p q : list string) : idsOf (p ++ q) = idsOf p ++ idsOf q.
Proof. unfold idsOf. rewrite map_app, filter_app. reflexivity. Qed.

Lemma idsOf_empty (p : list string) : idsOf ("" :: p) = idsOf p.
Proof. reflexivity. Qed.

Lemma split_go_app (a : string) (cur : string) (inSep : bool) :
  (inSep = true -> cur = "") ->
  exists pieces cur' inSep',
    (inSep' = true -> cur' = "")
    /\ forall rest, split_go (a +:+ rest) cur inSep = pieces ++ split_go rest cur' inSep'.
Proof.
  revert cur inSep. induction a as [| c a IH]; intros cur inSep Hcur.
  { exists [], cur, inSep. split; [exact Hcur | reflexivity]. }
  destruct (isSeparator c) eqn:Hsep.
  - destruct inSep.
    + destruct (IH cur true Hcur) as (pieces & cur' & inSep' & Hcur' & Happ).
      exists pieces, cur', inSep'. split; [exact Hcur' |].
      intros rest. rewrite append_String. cbn [split_go]. rewrite Hsep. apply Happ.
    + destruct (IH "" true (fun _ => eq_refl)) as (pieces & cur' & inSep' & Hcur' & Happ).
      exists (cur :: pieces), cur', inSep'. split; [exact Hcur' |].
      intros rest. rewrite append_String. cbn [split_go]. rewrite Hsep, Happ. reflexivity.
  - destruct (IH (cur +:+ String c "") false) as (pieces & cur' & inSep' & Hcur' & Happ).
    { discriminate. }
    exists pieces, cur', inSep'. split; [exact Hcur' |].
    intros rest. rewrite append_String. cbn [split_go]. rewrite Hsep. apply Happ.
Qed.

Lemma idsOf_after_separator (b : string) :
  idsOf (split_go b "" true) = idsOf (split b).
Proof.
  unfold split. destruct b as [| c b]; [reflexivity |]. cbn [split_go].
  destruct (isSeparator c); [| reflexivity]. rewrite idsOf_empty. reflexivity.
Qed.

Lemma parseFileIds_at_separator (a b : string) (c : ascii) :
  isSeparator c = true ->
  parseFileIds (a +:+ String c b) = parseFileIds a ++ parseFileIds b.
Proof.
  intros Hsep. change parseFileIds with (fun input => idsOf (split input)). cbn beta.
  unfold split at 1 2.
  destruct (split_go_app a "" false) as (pieces & cur' & inSep' & Hcur' & Happ).
  { discriminate. }
  rewrite (Happ (String c b)). pose proof (Happ "") as Ha. rewrite append_nil_r in Ha.
  rewrite Ha. cbn [split_go]. rewrite Hsep.
  destruct inSep'.
  - rewrite (Hcur' eq_refl). rewrite !idsOf_app, idsOf_after_separator.
    rewrite idsOf_empty. change (idsOf []) with (@nil number). rewrite app_nil_r. reflexivity.
  - rewrite !idsOf_app.
    change (cur' :: split_go b "" true) with ([cur'] ++ split_go b "" true).
    rewrite idsOf_app, idsOf_after_separator, app_assoc. reflexivity.
Qed.

(** X1.  [parseFileIds] reads a text piece by piece: for a comma or a
    white-space character [c], the identifiers of [a ++ c ++ b] are those of
    [a] followed by those of [b].  So a separator in front or at the end of
    the text changes nothing. *)
Theorem parseFileIds_concatenates (a b : string) (c : ascii) :
  isSeparator c = true ->
  parseFileIds (a +:+ String c b) = parseFileIds a ++ parseFileIds b
  /\ parseFileIds (String c b) = parseFileIds b
  /\ parseFileIds (a +:+ String c "") = parseFileIds a.
Proof.
  intros Hsep. split; [| split].
  - apply parseFileIds_at_separator, Hsep.
  - apply (parseFileIds_at_separator "" b c Hsep).
  - rewrite (parseFileIds_at_separator a "" c Hsep). apply app_nil_r.
Qed.

(** *** Decimal integers *)

Lemma digit_code (c : ascii) (d : Z) :
  digitValue 10 c = Some d -> 48 <= code c <= 57 /\ d = code c - 48.
Proof.
  unfold digitValue. set (n := code c).
  destruct ((48 <=? n) && (n <=? 57)) eqn:Hdec.
  - apply andb_true_iff in Hdec. destruct Hdec as [H1 H2].
    apply Z.leb_le in H1, H2. destruct (n - 48 <? 10); [| discriminate].
    intros [= <-]. lia.
  - destruct ((97 <=? n) && (n <=? 102)) eqn:Hlow.
    + apply andb_true_iff in Hlow. destruct Hlow as [H1 H2]. apply Z.leb_le in H1, H2.
      destruct (n - 87 <? 10) eqn:Hlt; [apply Z.ltb_lt in Hlt; lia | discriminate].
    + destruct ((65 <=? n) && (n <=? 70)) eqn:Hup; [| discriminate].
      apply andb_true_iff in Hup. destruct Hup as [H1 H2]. apply Z.leb_le in H1, H2.
      destruct (n - 55 <? 10) eqn:Hlt; [apply Z.ltb_lt in Hlt; lia | discriminate].
Qed.

Lemma digit_not_separator (c : ascii) (d : Z) :
  digitValue 10 c = Some d -> isSeparator c = false /\ isWhiteSpace c = false.
Proof.
  intros Hd. apply digit_code in Hd. destruct Hd as [Hc _].
  unfold isSeparator, isWhiteSpace.
  assert (H1 : (code c <=? 13) = false) by (apply Z.leb_gt; lia).
  assert (H2 : (code c =? 32) = false) by (apply Z.eqb_neq; lia).
  assert (H3 : (code c =? 160) = false) by (apply Z.eqb_neq; lia).
  assert (H4 : (code c =? 44) = false) by (apply Z.eqb_neq; lia).
  rewrite H1, H2, H3, H4, andb_false_r. split; reflexivity.
Qed.

Lemma digitValue_pretty (m : N) :
  (m < 10)%N -> digitValue 10 (pretty_N_char m) = Some (Z.of_N m).
Proof.
  intros Hm.
  assert (m = 0 \/ m = 1 \/ m = 2 \/ m = 3 \/ m = 4 \/ m = 5 \/ m = 6 \/ m = 7
          \/ m = 8 \/ m = 9)%N as Hcases by lia.
  repeat (destruct Hcases as [-> | Hcases]; [reflexivity |]). subst m. reflexivity.
Qed.

Lemma takeDigits_pretty (x : N) (s : string) (ds : list Z) (r : string) :
  takeDigits 10 s = (ds, r) ->
  exists dx,
    takeDigits 10 (pretty_N_go x s) = (dx ++ ds, r)
    /\ (forall acc, fold_left (fun acc d => 10 * acc + d) dx acc
                    = acc * 10 ^ Z.of_nat (length dx) + Z.of_N x)
    /\ ((0 < x)%N -> dx <> []).
Proof.
  revert s ds. induction (N.lt_wf_0 x) as [x _ IH]. intros s ds Hs.
  destruct (N.eq_0_gt_0_cases x) as [-> | Hpos].
  { exists []. rewrite pretty_N_go_0. split; [exact Hs |]. split; [| lia].
    intros acc. cbn. lia. }
  rewrite pretty_N_go_step by exact Hpos.
  assert (Hstep : takeDigits 10 (String (pretty_N_char (x `mod` 10)) s)
                  = (Z.of_N (x `mod` 10) :: ds, r)).
  { cbn [takeDigits]. rewrite digitValue_pretty by (apply N.mod_lt; lia).
    rewrite Hs. reflexivity. }
  destruct (IH (x `div` 10)%N (N.div_lt x 10 Hpos eq_refl) _ _ Hstep)
    as (dx & Htake & Hfold & _).
  exists (dx ++ [Z.of_N (x `mod` 10)]). split; [| split].
  - rewrite Htake, <- app_assoc. reflexivity.
  - intros acc. rewrite fold_left_app, Hfold. cbn [fold_left].
    rewrite length_app, Nat2Z.inj_add, Z.pow_add_r by lia. cbn [length].
    change (10 ^ Z.of_nat 1) with 10.
    pose proof (N.div_mod' x 10) as Hdm.
    assert (Hz : Z.of_N x = 10 * Z.of_N (x `div` 10) + Z.of_N (x `mod` 10)) by lia.
    rewrite Hz. ring.
  - intros _. destruct dx; discriminate.
Qed.

Lemma Qred_inject_Z (x : Z) : Qred (inject_Z x) = inject_Z x.
Proof.
  unfold Qred, inject_Z.
  pose proof (Z.ggcd_gcd x 1) as Hg. pose proof (Z.ggcd_correct_divisors x 1) as Hd.
  change (Z.pos 1) with 1.
  destruct (Z.ggcd x 1) as [g [aa bb]]. cbn [fst] in Hg.
  rewrite Z.gcd_1_r in Hg. subst g. destruct Hd as [Hx Hb].
  rewrite !Z.mul_1_l in *. subst. reflexivity.
Qed.

Lemma roundDouble_exact (x : Z) :
  0 < x < 2 ^ 52 -> roundDouble_pos x 1 = Fin (inject_Z x).
Proof.
  intros [Hpos Hlt]. unfold roundDouble_pos.
  assert (He : floor_log2 x 1 = Z.log2 x).
  { unfold floor_log2, scale_ge. change (Z.log2 1) with 0. rewrite Z.sub_0_r.
    pose proof (Z.log2_nonneg x) as Hnn.
    destruct (0 <=? Z.log2 x) eqn:H0; [| apply Z.leb_gt in H0; lia].
    pose proof (Z.log2_spec x Hpos) as [Hlow _].
    destruct (1 * 2 ^ Z.log2 x <=? x) eqn:Hle; [reflexivity |].
    apply Z.leb_gt in Hle. lia. }
  rewrite He.
  assert (Hlog : 0 <= Z.log2 x < 52).
  { split; [apply Z.log2_nonneg |]. apply Z.log2_lt_pow2; lia. }
  rewrite Z.max_l by lia.
  destruct (0 <=? Z.log2 x - 52) eqn:H0; [apply Z.leb_le in H0; lia |].
  f_equal. unfold round_half_even.
  rewrite Z.mod_1_r, Z.div_1_r. change (2 * 0 ?= 1) with Lt. cbn iota.
  rewrite <- Qred_inject_Z. apply Qred_complete.
  unfold Qeq, inject_Z. cbn [Qnum Qden].
  rewrite Z2Pos.id by (apply Z.pow_pos_nonneg; lia). ring.
Qed.

Lemma trimEnd_digits (t : string) (ds : list Z) :
  takeDigits 10 t = (ds, "") -> trimEnd t = t.
Proof.
  revert ds. induction t as [| c t IH]; intros ds Ht; [reflexivity |].
  cbn [takeDigits] in Ht. destruct (digitValue 10 c) as [d |] eqn:Hd; [| discriminate].
  destruct (takeDigits 10 t) as [ds' r] eqn:Hrest. injection Ht as <- ->.
  cbn [trimEnd]. rewrite (IH ds' eq_refl).
  destruct (digit_not_separator c d Hd) as [_ ->]. destruct t; reflexivity.
Qed.

Lemma trim_digits (t : string) (ds : list Z) :
  takeDigits 10 t = (ds, "") -> trim t = t.
Proof.
  intros Ht. unfold trim.
  assert (Hstart : trimStart t = t).
  { destruct t as [| c t]; [reflexivity |]. cbn [takeDigits] in Ht.
    destruct (digitValue 10 c) as [d |] eqn:Hd; [| discriminate].
    cbn [trimStart]. destruct (digit_not_separator c d Hd) as [_ ->]. reflexivity. }
  rewrite Hstart. eapply trimEnd_digits, Ht.
Qed.

Lemma split_digits (t cur : string) (ds : list Z) :
  takeDigits 10 t = (ds, "") -> split_go t cur false = [cur +:+ t].
Proof.
  revert cur ds. induction t as [| c t IH]; intros cur ds Ht.
  { rewrite append_nil_r. reflexivity. }
  cbn [takeDigits] in Ht. destruct (digitValue 10 c) as [d |] eqn:Hd; [| discriminate].
  destruct (takeDigits 10 t) as [ds' r] eqn:Hrest. injection Ht as <- ->.
  cbn [split_go]. destruct (digit_not_separator c d Hd) as [-> _].
  rewrite (IH _ ds' eq_refl). f_equal.
  clear. induction cur as [| c' cur IH]; [reflexivity |].
  rewrite !append_String, IH. reflexivity.
Qed.

Lemma parseUnsignedDecimal_digits (t : string) (d : Z) (ds : list Z) :
  takeDigits 10 t = (d :: ds, "") ->
  0 < digitsValue 10 (d :: ds) < 2 ^ 52 ->
  parseUnsignedDecimal t = ofZ (digitsValue 10 (d :: ds)).
Proof.
  intros Ht Hrange. unfold parseUnsignedDecimal.
  assert (Hinf : String.eqb t "Infinity" = false).
  { apply String.eqb_neq. intros ->. vm_compute in Ht. discriminate. }
  rewrite Hinf, Ht. cbn [parseExponent length]. rewrite app_nil_r.
  change (0 - Z.of_nat 0) with 0. unfold ofDecimal.
  destruct (digitsValue 10 (d :: ds) =? 0) eqn:Hz; [apply Z.eqb_eq in Hz; lia |].
  change (0 <=? 0) with true. cbn iota. change (10 ^ 0) with 1. rewrite Z.mul_1_r.
  apply roundDouble_exact, Hrange.
Qed.

Lemma Number_digits (t : string) (d : Z) (ds : list Z) :
  takeDigits 10 t = (d :: ds, "") ->
  0 < digitsValue 10 (d :: ds) < 2 ^ 52 ->
  Number t = ofZ (digitsValue 10 (d :: ds)).
Proof.
  intros Ht Hrange.
  pose proof (parseUnsignedDecimal_digits t d ds Ht Hrange) as Hvalue.
  unfold Number. rewrite (trim_digits t _ Ht).
  destruct t as [| c0 rest]; [cbn in Ht; discriminate |].
  cbn [takeDigits] in Ht.
  destruct (digitValue 10 c0) as [d0 |] eqn:Hd0; [| discriminate].
  destruct (digit_code c0 d0 Hd0) as [Hc0 _].
  assert (H43 : (code c0 =? 43) = false) by (apply Z.eqb_neq; lia).
  assert (H45 : (code c0 =? 45) = false) by (apply Z.eqb_neq; lia).
  destruct rest as [| c1 body].
  { cbv zeta beta iota. rewrite H43, H45. exact Hvalue. }
  destruct (takeDigits 10 (String c1 body)) as [ds1 r1] eqn:Hrest.
  cbn [takeDigits] in Hrest.
  destruct (digitValue 10 c1) as [d1 |] eqn:Hd1;
    [| injection Hrest as <- <-; discriminate Ht].
  destruct (digit_code c1 d1 Hd1) as [Hc1 _].
  cbv zeta beta.
  repeat match goal with
         | |- context [code c1 =? ?k] =>
             let Hk := fresh in
             assert (Hk : (code c1 =? k) = false) by (apply Z.eqb_neq; lia);
             rewrite Hk; clear Hk
         end.
  cbn [orb]. destruct (code c0 =? 48); cbv iota; rewrite H43, H45; exact Hvalue.
Qed.

Lemma Number_pretty (z : Z) :
  0 < z < 2 ^ 52 ->
  exists ds, takeDigits 10 (pretty z) = (ds, "") /\ Number (pretty z) = ofZ z.
Proof.
  intros Hz. destruct z as [| p |]; try lia.
  change (pretty (Z.pos p)) with (pretty (N.pos p)).
  unfold pretty, pretty_N. destruct (decide (N.pos p = 0%N)) as [Hp | _]; [discriminate |].
  destruct (takeDigits_pretty (N.pos p) "" [] "" eq_refl) as (dx & Htake & Hfold & Hne).
  rewrite app_nil_r in Htake. exists dx. split; [exact Htake |].
  destruct dx as [| d dx]; [exfalso; apply Hne; [lia | reflexivity] |].
  assert (Hvalue : digitsValue 10 (d :: dx) = Z.pos p).
  { unfold digitsValue. rewrite Hfold. cbn [Z.of_N]. lia. }
  rewrite (Number_digits _ d dx Htake); rewrite Hvalue; [reflexivity | exact Hz].
Qed.

Lemma inRange_ofZ (z : Z) : 10000 <= z <= 100000000 -> inRange (ofZ z) = true.
Proof.
  intros [Hlow Hhigh]. apply inRange_bounds. exists (inject_Z z).
  split; [reflexivity |]. rewrite <- !Zle_Qle. lia.
Qed.

Lemma parseFileIds_pretty (z : Z) :
  10000 <= z <= 100000000 -> parseFileIds (pretty z) = [ofZ z].
Proof.
  intros Hz. assert (Hr : 0 < z < 2 ^ 52) by lia.
  destruct (Number_pretty z Hr) as (ds & Htake & Hnum).
  unfold parseFileIds, split. rewrite (split_digits _ "" ds Htake), append_empty.
  cbn [map]. rewrite (trim_digits _ ds Htake), Hnum.
  rewrite filter_cons, filter_nil. rewrite (inRange_ofZ z Hz).
  destruct (decide (true = true)); [reflexivity | contradiction].
Qed.

Lemma parseFileIds_skips_separators (sep b : string) :
  allChars isSeparator sep = true -> parseFileIds (sep +:+ b) = parseFileIds b.
Proof.
  induction sep as [| c sep IH]; intros Hsep; [reflexivity |].
  cbn [allChars] in Hsep. apply andb_true_iff in Hsep. destruct Hsep as [Hc Hsep].
  rewrite append_String.
  etransitivity; [exact (parseFileIds_at_separator "" (sep +:+ b) c Hc) |].
  apply IH, Hsep.
Qed.

(** X2.  Identifiers between 10000 and 100000000, written in decimal and
    joined by a non-empty run of commas and white space, are read back by
    [parseFileIds] as they are, in the same order. *)
Theorem parseFileIds_reads_decimal (ids : list Z) (c : ascii) (sep : string) :
  Forall (fun z => 10000 <= z <= 100000000) ids ->
  allChars isSeparator (String c sep) = true ->
  parseFileIds (String.concat (String c sep) (map pretty ids)) = map ofZ ids.
Proof.
  intros Hids Hsep. cbn [allChars] in Hsep. apply andb_true_iff in Hsep.
  destruct Hsep as [Hc Hsep].
  induction Hids as [| z ids Hz Hids IH]; [reflexivity |].
  destruct ids as [| z' ids].
  { cbn [map String.concat]. apply parseFileIds_pretty, Hz. }
  change (String.concat (String c sep) (map pretty (z :: z' :: ids)))
    with (pretty z +:+ String c sep +:+ String.concat (String c sep) (map pretty (z' :: ids))).
  rewrite append_String.
  rewrite (parseFileIds_at_separator _ _ c Hc), parseFileIds_skips_separators by exact Hsep.
  rewrite IH, (parseFileIds_pretty z Hz). reflexivity.
Qed.

(** ** [instrumentedFetch]: propagation and result *)

Ltac lifted_readings :=
  rewrite ?omap_app, ?(omap_lifted spanStart), ?(omap_lifted injection),
    ?(omap_lifted clockReading), ?(omap_lifted attributeSet),
    ?(omap_lifted sentryMessage), ?(omap_lifted reportDialog),
    ?(omap_lifted fetchRequest), ?(omap_lifted (fetchedAs _)),
    ?(omap_lifted startedSpan), ?(omap_lifted endedSpan)
    by (intros []; reflexivity).

(** X3.  When [new Headers] accepts [init.headers], [instrumentedFetch]
    starts one span, named [options.spanName] or [fetch:<method>], with the
    address and the method as attributes and with [options.parentSpan], or
    else the active context, as parent; the propagator is handed the context
    of that span and the headers of [init], once; and the one request is
    made under the context of that span, to [input], with [init] and with
    the headers the propagator gave back. *)
Theorem instrumentedFetch_propagates {C} (k : BodyKind) (active : Context)
    (input : string) (init : RequestInit) (options : InstrumentedFetchOptions C k)
    (o : oracle (sumE obsE C)) (n : nat) (headers0 : Headers) :
  Headers_new (default [] (init_headers init)) = inr headers0 ->
  let t := (run o n (instrumentedFetch k active input init options)).1 in
  let method := default "GET" (init_method init) in
  exists span injected,
    spanStarts t =
      [{| start_name := default ("fetch:" +:+ method) (spanName options);
          start_attributes := [("http.url", input); ("http.method", method)];
          start_parent := match parentSpan options with
                          | Some parent => Some parent
                          | None => active
                          end;
          start_span := span |}]
    /\ injections t = [(Some span, headers0, injected)]
    /\ fetchRequests t =
         [{| req_kind := k; req_ctx := Some span; req_input := input;
             req_init := init; req_headers := injected |}].
Proof.
  intros Hheaders. unfold instrumentedFetch, obs, trigger. cbn.
  rewrite Hheaders. cbn.
  unfold tryFinally, tryCatch, instrumentedFetch_try, instrumentedFetch_catch,
    bindE, obs, trigger, throw, mbind, prog_bind. cbn.
  set (span := o Span n _).
  set (injected := o Headers (S n) _).
  exists span, injected.
  destruct (o _ (S (S (S n))) _) as [err | response]; cbn.
  - repeat split.
  - rewrite !run_bind.
    destruct (onRecord options) as [callback |]; cbn.
    + rewrite run_liftR.
      destruct (run (oracleR o) _ (callback _)) as [tc [err | []]]; cbn.
      all: unfold spanStarts, injections, fetchRequests; cbn; lifted_readings; cbn.
      all: repeat split.
    + repeat split.
Qed.

(** X4.  The clock is read once before the request.  When [fetch] throws
    it is not read again, no [http.status_code] is set and the exception
    leaves the call as it is.  When [fetch] resolves the clock is read once
    more, [http.status_code] is set to the status of the response, once, and,
    if [onRecord] cannot throw, the call returns that response, the trace
    identifier of the span and the difference of the two readings. *)
Theorem instrumentedFetch_returns {C} (k : BodyKind) (active : Context)
    (input : string) (init : RequestInit) (options : InstrumentedFetchOptions C k)
    (o : oracle (sumE obsE C)) (n : nat) :
  let r := run o n (instrumentedFetch k active input init options) in
  forall answer, fetched k r.1 = [answer] ->
  exists span started,
    startedSpans r.1 = [span]
    /\ match answer with
       | inl err =>
           clockReadings r.1 = [started] /\ attributesSet r.1 = [] /\ r.2 = inl err
       | inr response =>
           exists finished,
             clockReadings r.1 = [started; finished]
             /\ attributesSet r.1 = [(span, "http.status_code", resp_status response)]
             /\ (neverThrows (onRecord options) ->
                   r.2 = inr {| fr_response := response; fr_traceId := traceId span;
                                fr_duration := (finished - started)%Q |})
       end.
Proof.
  unfold instrumentedFetch, obs, trigger. cbn.
  set (span := o Span n _).
  destruct (Headers_new _) as [typeError | headers0]; cbn.
  { intros answer Hanswer. discriminate. }
  unfold tryFinally, tryCatch, instrumentedFetch_try, instrumentedFetch_catch,
    bindE, obs, trigger, throw, mbind, prog_bind. cbn.
  set (headers := o Headers (S n) _).
  set (started := o Q (S (S n)) _).
  destruct (o _ (S (S (S n))) _) as [err | response] eqn:Hanswer; cbn.
  - intros answer Hfetched. exists span, started.
    split; [reflexivity |].
    unfold fetched in Hfetched. cbn in Hfetched. try rewrite Hanswer in Hfetched.
    destruct k; injection Hfetched as <-; repeat split.
  - rewrite !run_bind.
    set (finished := o Q (S (S (S (S n)))) _).
    destruct (onRecord options) as [callback |] eqn:Hcb; cbn.
    + rewrite run_liftR.
      destruct (run (oracleR o) _ (callback _)) as [tc [err | []]] eqn:Hrun; cbn.
      all: intros answer Hfetched; exists span, started.
      all: unfold fetched, startedSpans, clockReadings, attributesSet in *; cbn in *.
      all: rewrite ?omap_app in Hfetched; cbn in Hfetched.
      all: rewrite ?(omap_lifted (fetchedAs k)) in Hfetched by (intros []; reflexivity).
      all: try rewrite Hanswer in Hfetched; cbn in Hfetched.
      all: lifted_readings; cbn.
      all: split; [reflexivity |].
      all: destruct k; injection Hfetched as <-; exists finished; repeat split.
      all: intros Hnever.
      all: try (match type of Hrun with
                | run ?o' ?n' (?f ?args) = _ =>
                    specialize (Hnever f args o' n' eq_refl);
                    rewrite Hrun in Hnever; discriminate
                end).
    + intros answer Hfetched; exists span, started.
      unfold fetched in Hfetched. cbn in Hfetched. try rewrite Hanswer in Hfetched.
      split; [reflexivity |].
      destruct k; injection Hfetched as <-; exists finished; repeat split.
Qed.

(** ** [requestJson] *)

Ltac unfold_request :=
  unfold requestJson, instrumentedFetch, obs, trigger, bindE; cbn;
  unfold tryFinally, tryCatch, instrumentedFetch_try, instrumentedFetch_catch,
    requestJson_onRecord, recordMetric, recordError, captureFrontendError,
    showFeedbackDialog, bindE, obs, app, trigger, throw, mbind, prog_bind; cbn.

Section RequestProofs.
Context `{ImportMetaEnv}.

(** X5.  Every request of [requestJson] whose [fetch] resolves adds one
    entry in front of the metrics, whether the response is ok or not: its
    endpoint is the label, its method [init.method] or [GET], its duration
    the difference of the two clock readings, its status that of the
    response, [success] is [response.ok] and the trace identifier is that
    of the span. *)
Theorem requestJson_records_metric (k : BodyKind) (active : Context) (path : string)
    (init : option RequestInit) (spanName label : string) (o : oracle E) (n : nat)
    (st : AppState) (response : Response k) :
  let r := run o n (requestJson k active path init spanName label) in
  fetched k r.1 = [inr response] ->
  exists span started finished entry,
    startedSpans r.1 = [span]
    /\ clockReadings r.1 = [started; finished]
    /\ metrics (applyCalls r.1 st) = entry :: take 29 (metrics st)
    /\ endpoint entry = label
    /\ method entry = default "GET" (init ≫= init_method)
    /\ duration entry = (finished - started)%Q
    /\ metric_status entry = resp_status response
    /\ success entry = ok response
    /\ metric_traceId entry = traceId span.
Proof.
  unfold_request.
  destruct (Headers_new _) as [typeError | headers0]; cbn.
  { discriminate. }
  set (span := o Span n _).
  set (started := o Q (S (S n)) _).
  destruct (o _ (S (S (S n))) _) as [err | response'] eqn:Hanswer; cbn.
  { unfold fetched. cbn. rewrite ?Hanswer. destruct k; discriminate. }
  set (finished := o Q (S (S (S (S n)))) _).
  assert (Hmethod : default "GET" (init_method (default emptyInit init))
                    = default "GET" (init ≫= init_method)).
  { destruct init; reflexivity. }
  destruct (ok response') eqn:Hok; cbn.
  - destruct (resp_json response') as [err | data]; cbn.
    all: unfold fetched; cbn; rewrite ?Hanswer.
    all: intros Hfetched; exists span, started, finished; eexists.
    all: assert (response' = response) as <- by (destruct k; congruence).
    all: repeat split; try reflexivity; try assumption.
    all: cbn; rewrite Hok; reflexivity.
  - destruct (resp_text response') as [err | text]; cbn.
    2: unfold sentryDsn; destruct (truthy VITE_SENTRY_DSN); cbn.
    all: unfold fetched; cbn; rewrite ?Hanswer.
    all: intros Hfetched; exists span, started, finished; eexists.
    all: assert (response' = response) as <- by (destruct k; congruence).
    all: repeat split; try reflexivity; try assumption.
    all: cbn; rewrite Hok; reflexivity.
Qed.

(** X6.  For a response that is not ok and whose text can be read,
    [requestJson] throws an [Error] whose message is the text, or
    [Request failed (<status>)] when the text is empty.  Before that it
    sends one message to Sentry with the status, the text and the trace
    identifier, puts one event [<label> failed (<status>)] with the text as
    context in front of the error log, and asks for the report dialog
    exactly when a Sentry DSN is configured.  Jobs and health are left as
    they are. *)
Theorem requestJson_rejects_not_ok (k : BodyKind) (active : Context) (path : string)
    (init : option RequestInit) (spanName label : string) (o : oracle E) (n : nat)
    (st : AppState) (response : Response k) (text : string) :
  let r := run o n (requestJson k active path init spanName label) in
  fetched k r.1 = [inr response] ->
  ok response = false ->
  resp_text response = inr text ->
  exists span event,
    startedSpans r.1 = [span]
    /\ r.2 = inl (ErrorObject "Error" (failureText text (resp_status response)))
    /\ errorEvents (applyCalls r.1 st) = event :: take 19 (errorEvents st)
    /\ error_message event = label +:+ " failed (" +:+ pretty (resp_status response) +:+ ")"
    /\ error_traceId event = Some (traceId span)
    /\ error_context event = Some text
    /\ sentryMessages r.1 =
         [("Request failed: " +:+ label,
           [("status", extraNumber (resp_status response)); ("body", extraString text);
            ("traceId", extraString (traceId span))])]
    /\ reportDialogs r.1 = (if truthy sentryDsn then [tt] else [])
    /\ jobs (applyCalls r.1 st) = jobs st
    /\ health (applyCalls r.1 st) = health st.
Proof.
  unfold_request.
  destruct (Headers_new _) as [typeError | headers0]; cbn.
  { discriminate. }
  set (span := o Span n _).
  destruct (o _ (S (S (S n))) _) as [err | response'] eqn:Hanswer; cbn.
  { unfold fetched. cbn. rewrite ?Hanswer. destruct k; discriminate. }
  destruct (ok response') eqn:Hok; cbn.
  - destruct (resp_json response') as [err | data]; cbn.
    all: unfold fetched; cbn; rewrite ?Hanswer.
    all: intros Hfetched Hnok; assert (response' = response) as <- by (destruct k; congruence).
    all: congruence.
  - destruct (resp_text response') as [err | text'] eqn:Htext; cbn.
    2: unfold sentryDsn; destruct (truthy VITE_SENTRY_DSN); cbn.
    all: unfold fetched; cbn; rewrite ?Hanswer.
    all: intros Hfetched _ Htext'.
    all: assert (response' = response) as <- by (destruct k; congruence).
    all: rewrite Htext in Htext'; try discriminate; injection Htext' as ->.
    all: exists span; eexists.
    all: repeat split; reflexivity.
Qed.

(** X7.  When [fetch] throws, [requestJson] throws the same exception and
    calls no setter: metrics, error log, last trace identifier, jobs and
    health are as before.  The exception is recorded on the span, which gets
    the status ERROR and is ended, and it is reported to Sentry once; no
    message is sent and no report dialog is asked for. *)
Theorem requestJson_network_failure (k : BodyKind) (active : Context) (path : string)
    (init : option RequestInit) (spanName label : string) (o : oracle E) (n : nat)
    (st : AppState) (err : JsError) :
  let r := run o n (requestJson k active path init spanName label) in
  fetched k r.1 = [inl err] ->
  r.2 = inl err
  /\ applyCalls r.1 st = st
  /\ sentryExceptions r.1 = [err]
  /\ sentryMessages r.1 = []
  /\ reportDialogs r.1 = []
  /\ exists span, startedSpans r.1 = [span] /\ endedSpans r.1 = [span]
       /\ statusesSet r.1 = [(span, ERROR)]
       /\ recordedExceptions r.1 = [(span, err)].
Proof.
  unfold_request.
  destruct (Headers_new _) as [typeError | headers0]; cbn.
  { discriminate. }
  set (span := o Span n _).
  destruct (o _ (S (S (S n))) _) as [err' | response'] eqn:Hanswer; cbn.
  - unfold fetched. cbn. rewrite ?Hanswer. intros Hfetched.
    assert (err' = err) as <- by (destruct k; congruence).
    repeat split. exists span. repeat split.
  - destruct (ok response') eqn:Hok; cbn.
    + destruct (resp_json response') as [e | data]; cbn.
      all: unfold fetched; cbn; rewrite ?Hanswer; destruct k; discriminate.
    + destruct (resp_text response') as [e | text'] eqn:Htext; cbn.
      2: unfold sentryDsn; destruct (truthy VITE_SENTRY_DSN); cbn.
      all: unfold fetched; cbn; rewrite ?Hanswer; destruct k; discriminate.
Qed.

End RequestProofs.

Section TraceViewerProofs.
Context `{ImportMetaEnv}.

(** X8.  [requestJson] starts a span with the given name under the active
    context and sends its request under that span.  Once the [fetch] has
    resolved, ok or not, [lastTraceId] is the trace identifier of that span
    and the Trace Viewer links to [JAEGER_UI_URL/trace/<that identifier>]
    (to nothing if the identifier is empty); when the [fetch] throws,
    [lastTraceId] and the link stay as they were. *)
Theorem trace_viewer_follows_request (k : BodyKind) (active : Context) (path : string)
    (init : option RequestInit) (spanName label : string) (o : oracle E) (n : nat)
    (st : AppState) (answer : JsError + Response k) :
  let r := run o n (requestJson k active path init spanName label) in
  fetched k r.1 = [answer] ->
  exists span,
    spanStarts r.1 =
      [{| start_name := spanName;
          start_attributes :=
            [("http.url", API_BASE_URL +:+ path);
             ("http.method", default "GET" (init ≫= init_method))];
          start_parent := active; start_span := span |}]
    /\ map req_ctx (fetchRequests r.1) = [Some span]
    /\ match answer with
       | inr response =>
           lastTraceId (applyCalls r.1 st) = Some (traceId span)
           /\ traceViewerHref (applyCalls r.1 st) =
                match traceId span with
                | EmptyString => None
                | String _ _ => Some (JAEGER_UI_URL +:+ "/trace/" +:+ traceId span)
                end
       | inl err =>
           lastTraceId (applyCalls r.1 st) = lastTraceId st
           /\ traceViewerHref (applyCalls r.1 st) = traceViewerHref st
       end.
Proof.
  unfold_request.
  destruct (Headers_new _) as [typeError | headers0]; cbn.
  { discriminate. }
  set (span := o Span n _).
  assert (Hmethod : default "GET" (init_method (default emptyInit init))
                    = default "GET" (init ≫= init_method)).
  { destruct init; reflexivity. }
  rewrite Hmethod.
  assert (Hhref : forall st', lastTraceId st' = Some (traceId span) ->
            traceViewerHref st' =
              match traceId span with
              | EmptyString => None
              | String _ _ => Some (JAEGER_UI_URL +:+ "/trace/" +:+ traceId span)
              end).
  { intros st' Hlast. unfold traceViewerHref. rewrite Hlast.
    destruct (traceId span); reflexivity. }
  destruct (o _ (S (S (S n))) _) as [err | response] eqn:Hanswer; cbn.
  - unfold fetched. cbn. intros Hfetched. exists span.
    assert (answer = inl err) as -> by (destruct k; congruence).
    repeat split.
  - destruct (ok response) eqn:Hok; cbn.
    + destruct (resp_json response) as [err | data]; cbn.
      all: unfold fetched; cbn; intros Hfetched; exists span.
      all: assert (answer = inr response) as -> by (destruct k; congruence).
      all: repeat split; apply Hhref; reflexivity.
    + destruct (resp_text response) as [err | text]; cbn.
      2: unfold sentryDsn; destruct (truthy VITE_SENTRY_DSN); cbn.
      all: unfold fetched; cbn; intros Hfetched; exists span.
      all: assert (answer = inr response) as -> by (destruct k; congruence).
      all: repeat split; apply Hhref; reflexivity.
Qed.

End TraceViewerProofs.

(** ** [handleDownloadInitiation] *)

Ltac unfold_initiation :=
  unfold handleDownloadInitiation, requestJson, instrumentedFetch, initiateInit,
    obs, app, trigger, bindE, mbind, prog_bind; cbn [init_headers default];
  change (Headers_new _)
    with (@inr JsError Headers [("Content-Type", "application/json")]);
  cbn;
  unfold tryFinally, tryCatch, instrumentedFetch_try, instrumentedFetch_catch,
    requestJson_onRecord, recordMetric, recordError, captureFrontendError,
    showFeedbackDialog, bindE, obs, app, trigger, throw, mbind, prog_bind; cbn.

Section InitiationProofs.
Context `{ImportMetaEnv}.

(** X9.  For a non-empty list, [handleDownloadInitiation] starts the span
    [ui.initiate_download] under the active context and, as its child, the
    span [api.download.initiate] of the request; the request is sent under
    the child, with the headers the propagator has made of the content
    type; the child is ended first and the UI span after it, each once,
    whatever the answer. *)
Theorem initiation_spans_nested (o : oracle E) (n : nat) (active : Context)
    (fileId : number) (others : list number) :
  let t := (run o n (handleDownloadInitiation active (fileId :: others))).1 in
  exists uiSpan span injected,
    spanStarts t =
      [{| start_name := "ui.initiate_download"; start_attributes := [];
          start_parent := active; start_span := uiSpan |};
       {| start_name := "api.download.initiate";
          start_attributes :=
            [("http.url", API_BASE_URL +:+ "/v1/download/initiate");
             ("http.method", "POST")];
          start_parent := Some uiSpan; start_span := span |}]
    /\ endedSpans t = [span; uiSpan]
    /\ injections t = [(Some span, [("Content-Type", "application/json")], injected)]
    /\ map (fun q => (req_ctx q, req_headers q)) (fetchRequests t) = [(Some span, injected)].
Proof.
  unfold_initiation.
  set (uiSpan := o Span _ (inlE (startSpan "ui.initiate_download" _ _))). set (uuid := o string _ _).
  set (span := o Span _ _). set (injected := o Headers _ _).
  exists uiSpan, span, injected.
  destruct (o (JsError + Response InitiateBody)%type _ _) as [err | response]; cbn.
  { repeat split. }
  destruct (ok response); cbn.
  - destruct (resp_json response) as [err | payload]; cbn; repeat split.
  - destruct (resp_text response) as [err | text]; cbn.
    2: unfold sentryDsn; destruct (truthy VITE_SENTRY_DSN); cbn.
    all: repeat split.
Qed.

(** X10.  Whatever the answer to a non-empty initiation, the handler ends
    with [isSubmitting = false] and no validation message, and leaves the
    health alone.  A success adds the job and no error event.  A failure
    leaves the jobs as they are and logs [Download initiation failed] with
    the message of the exception as context; for a response that is not ok
    this is the second event of that request, after the one
    [POST /v1/download/initiate failed (<status>)] logged by
    [requestJson]. *)
Theorem initiation_settles (o : oracle E) (n : nat) (active : Context)
    (fileId : number) (others : list number) (st : AppState) :
  let t := (run o n (handleDownloadInitiation active (fileId :: others))).1 in
  let st' := applyCalls t st in
  isSubmitting st' = false
  /\ initiateError st' = None
  /\ health st' = health st
  /\ exists answer,
       fetched InitiateBody t = [answer]
       /\ let failed (err : JsError) :=
            jobs st' = jobs st
            /\ exists event,
                 errorEvents st' = event :: take 19 (errorEvents st)
                 /\ error_message event = "Download initiation failed"
                 /\ error_traceId event = None
                 /\ error_context event = Some (errorText err) in
          match answer with
          | inl err => failed err
          | inr response =>
              if ok response then
                match resp_json response with
                | inr payload =>
                    errorEvents st' = errorEvents st
                    /\ dom (jobs st') = {[ payload_jobId payload ]} ∪ dom (jobs st)
                | inl err => failed err
                end
              else
                match resp_text response with
                | inr text =>
                    jobs st' = jobs st
                    /\ exists first second,
                         errorEvents st' = second :: first :: take 18 (errorEvents st)
                         /\ error_message first =
                              "POST /v1/download/initiate failed ("
                                +:+ pretty (resp_status response) +:+ ")"
                         /\ error_context first = Some text
                         /\ error_message second = "Download initiation failed"
                         /\ error_context second =
                              Some (failureText text (resp_status response))
                | inl err => failed err
                end
          end.
Proof.
  unfold_initiation.
  set (uiSpan := o Span _ (inlE (startSpan "ui.initiate_download" _ _))). set (uuid := o string _ _).
  set (span := o Span _ _).
  destruct (o (JsError + Response InitiateBody)%type _ _) as [err | response]; cbn.
  { repeat split. eexists. split; [reflexivity |]. cbn. split; [reflexivity |].
    eexists. repeat split. }
  destruct (ok response) eqn:Hok; cbn.
  - destruct (resp_json response) as [err | payload] eqn:Hjson; cbn.
    all: repeat split; eexists; (split; [reflexivity |]); cbn; rewrite Hok, Hjson.
    + split; [reflexivity |]. eexists. repeat split.
    + split; [reflexivity |]. apply dom_insert_L.
  - destruct (resp_text response) as [err | text] eqn:Htext; cbn.
    2: unfold sentryDsn; destruct (truthy VITE_SENTRY_DSN); cbn.
    all: repeat split; eexists; (split; [reflexivity |]); cbn; rewrite Hok, Htext.
    + split; [reflexivity |]. eexists. repeat split.
    + split; [reflexivity |]. do 2 eexists. rewrite take_take. repeat split.
    + split; [reflexivity |]. do 2 eexists. rewrite take_take. repeat split.
Qed.

End InitiationProofs.

(** ** The status callbacks *)



Section StatusProofs.
Context `{ImportMetaEnv}.



End StatusProofs.

(** ** The polling loop: requests in flight and the set of jobs *)

Section LoopProofs.
Context `{ImportMetaEnv}.

(** X13.  The interval does not wait for answers: when it fires several
    times before any answer arrives, every pending job is asked for once
    per firing, the state is not touched and all these requests are awaited
    together. *)
Theorem polling_piles_up (active : Context) (l : Loop) (os : list (oracle E)) :
  let r := runLoop active (map intervalFires os) l in
  loop_state r.2 = loop_state l
  /\ map req_input r.1 = mjoin (replicate (length os) (statusUrls (loop_state l)))
  /\ map req_input (map inflight_request (inflight r.2)) =
       map req_input (map inflight_request (inflight l)) ++ map req_input r.1
  /\ length (inflight r.2) =
       (length (inflight l) + length os * length (pendingJobIds (jobs (loop_state l))))%nat.
Proof.
  revert l. induction os as [| o os IH]; intros l; cbn [map runLoop].
  { cbn. rewrite app_nil_r. repeat split. lia. }
  destruct (loopStep_interval active l o) as (Hst & ws & Hin & Hreq & Hnew).
  destruct (interval_requests active l o) as [Hinputs _].
  cbn zeta in Hst, Hin, Hreq, Hinputs.
  specialize (IH (loopStep active l (intervalFires o)).2).
  destruct (loopStep active l (intervalFires o)) as [requests l'].
  cbn [fst snd] in *.
  destruct (runLoop active (map intervalFires os) l') as [requests' l'']. cbn [fst snd] in *.
  destruct IH as (IHst & IHreq & IHin & IHlen).
  rewrite Hst in IHst, IHreq, IHlen. split; [exact IHst |]. split; [| split].
  - rewrite map_app, Hinputs, IHreq. reflexivity.
  - rewrite IHin, Hin, !map_app, <- Hreq, app_assoc. reflexivity.
  - rewrite IHlen, Hin, length_app.
    apply Forall2_length in Hnew. rewrite <- Hnew. cbn [length]. lia.
Qed.

Lemma pending_known (jobs0 : gmap string DownloadJob) (id : string) :
  wellKeyed jobs0 -> id ∈ pendingJobIds jobs0 -> is_Some (jobs0 !! id).
Proof.
  intros Hwk Hin. apply elem_of_pendingJobIds in Hin.
  destruct Hin as (job & Hvalues & Hid & _).
  apply elem_of_Object_values in Hvalues. destruct Hvalues as [key Hkey].
  pose proof (Hwk key job Hkey) as Hk. cbn in Hk.
  exists job. congruence.
Qed.

Lemma awaitsKnown_step (active : Context) (l : Loop) (event : LoopEvent)
    (rest : list LoopEvent) :
  loopGood l -> answersEcho active (event :: rest) l -> awaitsKnown l ->
  awaitsKnown (loopStep active l event).2
  /\ dom (jobs (loop_state (loopStep active l event).2)) = dom (jobs (loop_state l)).
Proof.
  intros [Hwk Hws] [Hecho _] Hknown. unfold awaitsKnown in *.
  destruct event as [o | i answer o].
  - destruct (loopStep_interval active l o) as (Hst & ws & Hin & _ & Hnew).
    cbn zeta in Hst, Hin. rewrite Hst, Hin. split; [| reflexivity].
    apply Forall_app. split; [exact Hknown |].
    assert (Hpending : Forall (fun id => is_Some (jobs (loop_state l) !! id))
                         (pendingJobIds (jobs (loop_state l)))).
    { apply Forall_forall. intros id. apply pending_known, Hwk. }
    clear -Hnew Hpending.
    induction Hnew as [| id w pending ws Hw _ IH]; [constructor |].
    apply Forall_cons in Hpending. destruct Hpending as [Hid Hpending].
    constructor; eauto.
  - destruct (inflight l !! i) as [w |] eqn:Hw.
    2: { cbn. rewrite Hw. split; [exact Hknown | reflexivity]. }
    pose proof (Forall_lookup_1 _ _ _ _ Hknown Hw) as (id & Hid & Hsome).
    destruct (loopStep_answer active l i answer o w id Hw Hid) as (_ & Hin & Hjobs).
    cbn zeta in Hin, Hjobs. rewrite Hin.
    destruct Hjobs as [-> | (response & data & now & Hans & Hjson & ->)].
    + split; [apply Forall_delete; exact Hknown | reflexivity].
    + split.
      * apply Forall_delete. eapply Forall_impl; [exact Hknown |].
        intros w' (id' & Hid' & Hsome'). exists id'. split; [exact Hid' |].
        destruct (decide (id = id')) as [<- | Hne].
        -- rewrite lookup_insert_eq. eauto.
        -- rewrite lookup_insert_ne by exact Hne. exact Hsome'.
      * rewrite dom_insert_L. apply subseteq_union_1_L, singleton_subseteq_l, elem_of_dom.
        exact Hsome.
Qed.

(** X14.  With records stored under their own [jobId] and answers that
    carry the record of the job asked for, polling creates and removes no
    job: after any sequence of firings and arrivals the job map has the
    same keys, each still holding a record with that [jobId]. *)
Theorem polling_keeps_job_set (active : Context) (st : AppState)
    (events : list LoopEvent) :
  let l0 := {| loop_state := st; inflight := [] |} in
  wellKeyed (jobs st) ->
  answersEcho active events l0 ->
  dom (jobs (loop_state (runLoop active events l0).2)) = dom (jobs st)
  /\ wellKeyed (jobs (loop_state (runLoop active events l0).2)).
Proof.
  intros l0 Hwk Hecho.
  assert (Hgood : loopGood l0) by (split; [exact Hwk | constructor]).
  assert (Hknown : awaitsKnown l0) by constructor.
  change (jobs st) with (jobs (loop_state l0)).
  clearbody l0. clear Hwk.
  revert l0 Hgood Hknown Hecho.
  induction events as [| event events IH]; intros l Hgood Hknown Hecho; cbn.
  { split; [reflexivity | apply Hgood]. }
  pose proof (loopGood_step active l event events Hgood Hecho) as Hgood'.
  destruct (awaitsKnown_step active l event events Hgood Hecho Hknown) as [Hknown' Hdom].
  destruct Hecho as [_ Hecho].
  destruct (loopStep active l event) as [requests l']. cbn [fst snd] in *.
  specialize (IH l' Hgood' Hknown' Hecho).
  destruct (runLoop active events l') as [requests' l'']. cbn [fst snd] in *.
  rewrite <- Hdom. exact IH.
Qed.

End LoopProofs.

(** ** [metricsSummary]: totals and order *)

Lemma totalCount_Map_set (key : string) (row : SummaryRow)
    (summary : list (string * SummaryRow)) :
  totalCount (Map_values (Map_set key row summary)) =
  totalCount (Map_values summary) + count row
  - match Map_get key summary with Some old => count old | None => 0 end.
Proof.
  unfold Map_values, totalCount, totalSuccessCount.
  induction summary as [| [k old] summary IH]; cbn; [lia |].
  destruct (String.eqb k key); cbn; lia.
Qed.

Lemma totalSuccessCount_Map_set (key : string) (row : SummaryRow)
    (summary : list (string * SummaryRow)) :
  totalSuccessCount (Map_values (Map_set key row summary)) =
  totalSuccessCount (Map_values summary) + successCount row
  - match Map_get key summary with Some old => successCount old | None => 0 end.
Proof.
  unfold Map_values, totalCount, totalSuccessCount.
  induction summary as [| [k old] summary IH]; cbn; [lia |].
  destruct (String.eqb k key); cbn; lia.
Qed.

Lemma totals_fold (metrics : list RequestMetric) (summary : list (string * SummaryRow)) :
  let rows := Map_values (fold_left summaryStep metrics summary) in
  totalCount rows = totalCount (Map_values summary) + Z.of_nat (length metrics)
  /\ totalSuccessCount rows =
       totalSuccessCount (Map_values summary) + Z.of_nat (length (successes metrics)).
Proof.
  revert summary. induction metrics as [| m metrics IH]; intros summary; cbn [fold_left].
  { unfold successes. rewrite filter_nil. cbn [length]. split; lia. }
  destruct (IH (summaryStep summary m)) as [IHc IHs]. cbn zeta in IHc, IHs.
  cbn zeta. rewrite IHc, IHs. unfold summaryStep.
  rewrite totalCount_Map_set, totalSuccessCount_Map_set.
  unfold successes. rewrite filter_cons. cbn [count successCount].
  destruct (Map_get (metricKey m) summary) as [old |]; cbn [default count successCount].
  all: destruct (decide (success m = true)) as [-> | Hne].
  all: try (destruct (success m); [congruence |]).
  all: unfold id; cbn [length]; split; lia.
Qed.

(** X15.  The rows of [metricsSummary] count every metric once: their
    counts add up to the number of metrics and their success counts to the
    number of successful ones; each row has a count of at least 1 and a
    success count between 0 and its count, so the success rate shown is a
    quotient by a non-zero number, between 0 and 1; and there is no row
    exactly when there is no metric. *)
Theorem metricsSummary_totals (metrics : list RequestMetric) :
  let rows := metricsSummary metrics in
  totalCount rows = Z.of_nat (length metrics)
  /\ totalSuccessCount rows = Z.of_nat (length (successes metrics))
  /\ Forall (fun row => 1 <= count row /\ 0 <= successCount row <= count row) rows
  /\ (rows = [] <-> metrics = []).
Proof.
  intros rows. destruct (totals_fold metrics []) as [Hc Hs].
  cbn in Hc, Hs. fold (metricsSummary metrics) in Hc, Hs. fold rows in Hc, Hs.
  split; [exact Hc |]. split; [exact Hs |]. split.
  - apply Forall_forall. intros row Hrow.
    destruct (metricsSummary_by_key metrics) as (_ & _ & Hrows).
    destruct (rowFor_mean _ _ (Hrows row Hrow)) as (Hne & Hcount & Hsucc & _).
    rewrite Hcount, Hsucc.
    pose proof (length_filter (fun m => success m = true) (keyGroup (rowKey row) metrics)) as Hle.
    unfold successes.
    destruct (keyGroup (rowKey row) metrics) as [| first rest]; [contradiction |].
    cbn [length] in *. lia.
  - split.
    + intros Hnil. rewrite Hnil in Hc. cbn in Hc.
      destruct metrics; [reflexivity | cbn in Hc; lia].
    + intros ->. reflexivity.
Qed.

Lemma summary_keys (metrics : list RequestMetric) :
  map rowKey (metricsSummary metrics) = map fst (fold_left summaryStep metrics []).
Proof.
  pose proof (summaryFor_fold metrics [] [] summaryFor_nil) as Hinv.
  rewrite app_nil_l in Hinv. destruct Hinv as [Hnd Hrows].
  unfold metricsSummary, Map_values. rewrite map_map.
  apply map_ext_in. intros [key row] Hin. cbn.
  apply list_elem_of_In, Map_get_elem_of in Hin; [| exact Hnd].
  specialize (Hrows key). rewrite Hin in Hrows.
  eapply rowFor_key; [| exact Hrows]. intros m. apply keyGroup_key.
Qed.

Lemma summary_keys_snoc (metrics : list RequestMetric) (m : RequestMetric) :
  let keys := map fst (fold_left summaryStep metrics []) in
  map fst (fold_left summaryStep (metrics ++ [m]) []) =
  if decide (metricKey m ∈ keys) then keys else keys ++ [metricKey m].
Proof.
  intros keys. subst keys. rewrite fold_left_app. cbn [fold_left].
  set (summary := fold_left summaryStep metrics []). unfold summaryStep.
  rewrite Map_set_keys.
  destruct (Map_get (metricKey m) summary) eqn:Hget.
  - destruct (decide _) as [Hin | Hnot]; [reflexivity |].
    apply Map_get_None in Hnot. congruence.
  - apply Map_get_None in Hget. destruct (decide _); [contradiction | reflexivity].
Qed.

Lemma length_remove_dups {A} `{EqDecision A} (l : list A) :
  (length (remove_dups l) <= length l)%nat.
Proof.
  induction l as [| x l IH]; cbn; [lia |].
  destruct (decide_rel elem_of x l); cbn; lia.
Qed.

Lemma first_row_stays (metrics : list RequestMetric) (key : string) (row : SummaryRow)
    (summary : list (string * SummaryRow)) :
  exists row' summary',
    fold_left summaryStep metrics ((key, row) :: summary) = (key, row') :: summary'
    /\ row_method row' = row_method row /\ row_endpoint row' = row_endpoint row.
Proof.
  revert row summary. induction metrics as [| m metrics IH]; intros row summary; cbn [fold_left].
  { eauto. }
  unfold summaryStep at 2. cbn [Map_get Map_set].
  destruct (String.eqb key (metricKey m)).
  - match goal with
    | |- context [fold_left summaryStep metrics ((key, ?changed) :: ?others)] =>
        destruct (IH changed others) as (row' & summary' & Heq & Hm & He)
    end.
    exists row', summary'. split; [exact Heq |]. rewrite Hm, He. split; reflexivity.
  - apply IH.
Qed.

(** X16.  The rows come in the order in which their keys first occur in
    the metrics, one row per distinct key, so there are at most as many rows
    as metrics; as the metrics are kept newest first, the first row is that
    of the latest request. *)
Theorem metricsSummary_order (metrics : list RequestMetric) :
  let rows := metricsSummary metrics in
  map rowKey rows = reverse (remove_dups (reverse (map metricKey metrics)))
  /\ (length rows <= length metrics)%nat
  /\ forall latest older, metrics = latest :: older ->
       exists row others, rows = row :: others
         /\ row_method row = method latest /\ row_endpoint row = endpoint latest.
Proof.
  intros rows.
  assert (Hkeys : map rowKey rows = reverse (remove_dups (reverse (map metricKey metrics)))).
  { unfold rows. rewrite summary_keys.
    induction metrics as [| m metrics IH] using rev_ind; [reflexivity |].
    rewrite summary_keys_snoc. cbn zeta. rewrite IH.
    rewrite map_app, reverse_app. cbn [map].
    change (reverse [metricKey m] ++ ?keys) with (metricKey m :: keys).
    cbn [remove_dups].
    destruct (decide (metricKey m ∈ reverse (remove_dups (reverse (map metricKey metrics)))));
      destruct (decide_rel elem_of (metricKey m) (reverse (map metricKey metrics))).
    all: try reflexivity; try (rewrite reverse_cons; reflexivity).
    all: exfalso.
    all: repeat match goal with
           | Hk : context [reverse (remove_dups _)] |- _ =>
               rewrite elem_of_reverse, elem_of_remove_dups in Hk
           end.
    all: contradiction. }
  split; [exact Hkeys |]. split.
  - rewrite <- (length_map rowKey), Hkeys, length_reverse.
    etransitivity; [apply length_remove_dups |].
    rewrite length_reverse, length_map. reflexivity.
  - intros latest older ->. unfold rows, metricsSummary. cbn [fold_left].
    unfold summaryStep at 2. cbn [Map_get Map_set default].
    match goal with
    | |- context [fold_left summaryStep older [(?key, ?row)]] =>
        destruct (first_row_stays older key row []) as (row' & summary' & -> & Hm & He)
    end.
    exists row', (Map_values summary'). split; [reflexivity |]. split; assumption.
Qed.

(** ** Jobs, polling and the buttons of a card *)

Section TrackingProofs.
Context `{ImportMetaEnv}.

(** X17.  A job that has just been initiated is tracked: after a
    successful initiation the map is still keyed by [jobId] if it was, the
    new job is among the pending ones exactly when the returned status is
    not terminal, and the other jobs are pending exactly as before. *)
Theorem initiated_job_is_tracked (o : oracle E) (n : nat) (active : Context)
    (fileId : number) (others : list number) (st : AppState)
    (response : Response InitiateBody) (payload : InitiatePayload) :
  let t := (run o n (handleDownloadInitiation active (fileId :: others))).1 in
  let st' := applyCalls t st in
  fetched InitiateBody t = [inr response] ->
  ok response = true ->
  resp_json response = inr payload ->
  (wellKeyed (jobs st) -> wellKeyed (jobs st'))
  /\ (payload_status payload ∉ terminalStatuses ->
      payload_jobId payload ∈ pendingJobIds (jobs st'))
  /\ (payload_status payload ∈ terminalStatuses -> wellKeyed (jobs st) ->
      payload_jobId payload ∉ pendingJobIds (jobs st'))
  /\ forall id, id <> payload_jobId payload -> wellKeyed (jobs st) ->
       (id ∈ pendingJobIds (jobs st') <-> id ∈ pendingJobIds (jobs st)).
Proof.
  unfold_initiation.
  set (uiSpan := o Span _ (inlE (startSpan "ui.initiate_download" _ _))).
  set (uuid := o string _ _).
  destruct (o (JsError + Response InitiateBody)%type _ _) as [err | response'] eqn:Hanswer; cbn.
  { unfold fetched. cbn. discriminate. }
  destruct (ok response') eqn:Hok; cbn.
  2: { destruct (resp_text response') as [err | text]; cbn.
       2: unfold sentryDsn; destruct (truthy VITE_SENTRY_DSN); cbn.
       all: unfold fetched; cbn; intros [= <-]; congruence. }
  destruct (resp_json response') as [err | payload'] eqn:Hjson; cbn.
  all: unfold fetched; cbn; intros [= <-] _ Hjson'; rewrite Hjson in Hjson'; try discriminate.
  injection Hjson' as <-.
  match goal with
  | |- context [<[payload_jobId payload' := ?job]> (jobs st)] => set (record := job)
  end.
  assert (Hid : jobId record = payload_jobId payload') by reflexivity.
  assert (Hstatus : status record = payload_status payload') by reflexivity.
  clearbody record.
  split; [| split; [| split]].
  - intros Hwk. apply wellKeyed_insert; assumption.
  - intros Hnot. apply elem_of_pendingJobIds. exists record. split; [| split].
    + apply elem_of_Object_values. exists (payload_jobId payload'). apply lookup_insert_eq.
    + exact Hid.
    + rewrite Hstatus. exact Hnot.
  - intros Hterm Hwk.
    apply (terminal_not_pending _ _ record).
    + apply wellKeyed_insert; assumption.
    + apply lookup_insert_eq.
    + rewrite Hstatus. exact Hterm.
  - intros id Hne Hwk.
    assert (Hwk' : wellKeyed (<[payload_jobId payload' := record]> (jobs st)))
      by (apply wellKeyed_insert; assumption).
    rewrite !elem_of_pendingJobIds. split.
    + intros (job & Hin & Hjid & Hnot). exists job. split; [| auto].
      apply elem_of_Object_values in Hin. destruct Hin as [key Hkey].
      pose proof (Hwk' key job Hkey) as Hk. cbn in Hk.
      rewrite lookup_insert_ne in Hkey by congruence.
      apply elem_of_Object_values. eauto.
    + intros (job & Hin & Hjid & Hnot). exists job. split; [| auto].
      apply elem_of_Object_values in Hin. destruct Hin as [key Hkey].
      pose proof (Hwk key job Hkey) as Hk. cbn in Hk.
      apply elem_of_Object_values. exists key.
      rewrite lookup_insert_ne by congruence. exact Hkey.
Qed.

(** X18.  In a map keyed by [jobId], the Download and the Retry button are
    never shown together, a job that shows either of them is not polled,
    and a job that is polled shows neither. *)
Theorem job_actions_when_settled (jobs0 : gmap string DownloadJob) (id : string)
    (job : DownloadJob) :
  wellKeyed jobs0 ->
  jobs0 !! id = Some job ->
  (showsDownload job && showsRetry job = false)
  /\ (showsDownload job || showsRetry job = true -> id ∉ pendingJobIds jobs0)
  /\ (id ∈ pendingJobIds jobs0 -> showsDownload job = false /\ showsRetry job = false).
Proof.
  intros Hwk Hjob.
  assert (Hsettled : showsDownload job || showsRetry job = true ->
                     status job ∈ terminalStatuses).
  { unfold showsDownload, showsRetry. intros Hshown.
    apply orb_true_iff in Hshown. destruct Hshown as [Hd | Hr].
    - apply andb_true_iff in Hd. destruct Hd as [Hd _].
      apply bool_decide_eq_true in Hd. rewrite Hd. unfold terminalStatuses.
      rewrite !elem_of_cons. auto.
    - apply bool_decide_eq_true in Hr. rewrite Hr. unfold terminalStatuses.
      rewrite !elem_of_cons. auto. }
  split; [| split].
  - unfold showsDownload, showsRetry.
    destruct (bool_decide (status job = completed)) eqn:Hc; [| reflexivity].
    apply bool_decide_eq_true in Hc. rewrite Hc.
    rewrite andb_false_r. reflexivity.
  - intros Hshown. eapply terminal_not_pending; eauto.
  - intros Hpending.
    destruct (showsDownload job || showsRetry job) eqn:Hshown.
    + exfalso. eapply terminal_not_pending; eauto.
    + apply orb_false_iff in Hshown. exact Hshown.
Qed.

End TrackingProofs.

(** ** Sample runs *)

(** X3, witness: a [GET] of [/health] without headers, started outside any
    span. *)
Lemma instrumentedFetch_propagates_witness :
  let t := (run (environment sampleServer) 0
              (instrumentedFetch HealthBody None "/health" emptyInit noOptions)).1 in
  Headers_new (default [] (init_headers emptyInit)) = inr []
  /\ exists span injected,
       spanStarts t =
         [{| start_name := "fetch:GET";
             start_attributes := [("http.url", "/health"); ("http.method", "GET")];
             start_parent := None; start_span := span |}]
       /\ injections t = [(Some span, [], injected)]
       /\ fetchRequests t =
            [{| req_kind := HealthBody; req_ctx := Some span; req_input := "/health";
                req_init := emptyInit; req_headers := injected |}].
Proof.
  intros t. split; [reflexivity |].
  apply (instrumentedFetch_propagates HealthBody None "/health" emptyInit noOptions
           (environment sampleServer) 0 []).
  reflexivity.
Defined.

(** X4, witness: the same request, answered with the status 200. *)
Lemma instrumentedFetch_returns_witness :
  let r := run (environment sampleServer) 0
             (instrumentedFetch HealthBody None "/health" emptyInit noOptions) in
  fetched HealthBody r.1 = [inr (jsonResponse HealthBody 200 sampleHealth)]
  /\ exists span started finished,
       startedSpans r.1 = [span]
       /\ clockReadings r.1 = [started; finished]
       /\ attributesSet r.1 = [(span, "http.status_code", 200)].
Proof.
  intros r. split; [reflexivity |].
  destruct (instrumentedFetch_returns HealthBody None "/health" emptyInit noOptions
              (environment sampleServer) 0
              (inr (jsonResponse HealthBody 200 sampleHealth)) eq_refl)
    as (span & started & Hspan & finished & Hclock & Hattr & _).
  exists span, started, finished. auto.
Defined.

(** X5, witness: a health request answered with the status 503 still
    leaves its metric, with [success = false]. *)
Lemma requestJson_records_metric_witness :
  let r := run (environment unavailableServer) 0
             (requestJson (H := sampleEnv) HealthBody None "/health" None "api.health" "health") in
  fetched HealthBody r.1 = [unavailableServer HealthBody ""]
  /\ exists entry,
       head (metrics (applyCalls r.1 initialState)) = Some entry
       /\ endpoint entry = "health" /\ method entry = "GET"
       /\ metric_status entry = 503 /\ success entry = false.
Proof.
  intros r. split; [reflexivity |].
  destruct (requestJson_records_metric (H := sampleEnv) HealthBody None "/health" None
              "api.health" "health" (environment unavailableServer) 0 initialState
              {| resp_status := 503; resp_text := inr "storage unavailable";
                 resp_json := inl (ErrorObject "SyntaxError" "Unexpected token s in JSON") |}
              eq_refl)
    as (span & started & finished & entry & _ & _ & Hm & He & Hmeth & _ & Hs & Hok & _).
  exists entry. fold r in Hm. rewrite Hm. repeat split; assumption.
Defined.

(** X6, witness: the status 503 with the text [storage unavailable]. *)
Lemma requestJson_rejects_not_ok_witness :
  let r := run (environment unavailableServer) 0
             (requestJson (H := sampleEnv) HealthBody None "/health" None "api.health" "health") in
  fetched HealthBody r.1 = [unavailableServer HealthBody ""]
  /\ r.2 = inl (ErrorObject "Error" "storage unavailable")
  /\ exists event,
       errorEvents (applyCalls r.1 initialState) = [event]
       /\ error_message event = "health failed (" +:+ pretty 503 +:+ ")"
       /\ error_context event = Some "storage unavailable".
Proof.
  intros r. split; [reflexivity |].
  destruct (requestJson_rejects_not_ok (H := sampleEnv) HealthBody None "/health" None
              "api.health" "health" (environment unavailableServer) 0 initialState
              {| resp_status := 503; resp_text := inr "storage unavailable";
                 resp_json := inl (ErrorObject "SyntaxError" "Unexpected token s in JSON") |}
              "storage unavailable" eq_refl eq_refl eq_refl)
    as (span & event & _ & Hres & Hevents & Hmsg & _ & Hctx & _).
  split; [exact Hres |]. exists event. auto.
Defined.

(** X7, witness: no server answers. *)
Lemma requestJson_network_failure_witness :
  let r := run (environment offline) 0
             (requestJson (H := sampleEnv) HealthBody None "/health" None "api.health" "health") in
  fetched HealthBody r.1 = [inl networkError]
  /\ r.2 = inl networkError
  /\ applyCalls r.1 sampleState = sampleState
  /\ sentryExceptions r.1 = [networkError].
Proof.
  intros r. split; [reflexivity |].
  destruct (requestJson_network_failure (H := sampleEnv) HealthBody None "/health" None
              "api.health" "health" (environment offline) 0 sampleState networkError eq_refl)
    as (Hres & Hstate & Hsentry & _).
  auto.
Defined.

(** X8, witness: a health request that is answered. *)
Lemma trace_viewer_follows_request_witness :
  let r := run (environment sampleServer) 0
             (requestJson (H := sampleEnv) HealthBody None "/health" None "api.health" "health") in
  fetched HealthBody r.1 = [inr (jsonResponse HealthBody 200 sampleHealth)]
  /\ exists span,
       map req_ctx (fetchRequests r.1) = [Some span]
       /\ lastTraceId (applyCalls r.1 initialState) = Some (traceId span).
Proof.
  intros r. split; [reflexivity |].
  destruct (trace_viewer_follows_request (H := sampleEnv) HealthBody None "/health" None
              "api.health" "health" (environment sampleServer) 0 initialState
              (inr (jsonResponse HealthBody 200 sampleHealth)) eq_refl)
    as (span & _ & Hctx & Hlast & _).
  exists span. auto.
Defined.

(** X14, witness: the interval fires, the answer for [job-2] arrives, the
    interval fires again. *)
Lemma polling_keeps_job_set_witness :
  let env := environment sampleServer in
  let events := [intervalFires env; answerArrives 0 (answerFor "job-2" completed) env;
                 intervalFires env] in
  wellKeyed (jobs sampleState)
  /\ dom (jobs (loop_state (runLoop (H := sampleEnv) None events sampleLoop).2))
     = dom (jobs sampleState).
Proof.
  intros env events. split; [exact sampleJobs_wellKeyed |].
  apply (polling_keeps_job_set (H := sampleEnv) None sampleState events).
  - exact sampleJobs_wellKeyed.
  - unfold events. cbn [answersEcho]. repeat split.
    intros w response data Hw [= <-] [= <-]. vm_compute in Hw. injection Hw as <-.
    reflexivity.
Defined.

(** X1, witness: two identifiers around a comma. *)
Lemma parseFileIds_concatenates_witness :
  isSeparator "," = true
  /\ parseFileIds ("70000" +:+ String "," " 71000") = parseFileIds "70000" ++ parseFileIds " 71000".
Proof.
  split; [reflexivity |].
  apply (parseFileIds_concatenates "70000" " 71000" "," eq_refl).
Defined.

(** X2, witness: the text the form starts with. *)
Lemma parseFileIds_reads_decimal_witness :
  Forall (fun z => 10000 <= z <= 100000000) [70000; 71000; 72000]
  /\ allChars isSeparator ", " = true
  /\ parseFileIds (String.concat ", " (map pretty [70000; 71000; 72000]))
     = map ofZ [70000; 71000; 72000].
Proof.
  assert (Hids : Forall (fun z => 10000 <= z <= 100000000) [70000; 71000; 72000]).
  { repeat constructor; lia. }
  split; [exact Hids |]. split; [reflexivity |].
  apply (parseFileIds_reads_decimal [70000; 71000; 72000] "," " " Hids eq_refl).
Defined.

(** X17, witness: the sample server accepts the initiation as the queued
    [job-1]. *)
Lemma initiated_job_is_tracked_witness :
  let t := (run (environment sampleServer) 0
              (handleDownloadInitiation (H := sampleEnv) None [Fin 70000])).1 in
  fetched InitiateBody t = [inr (jsonResponse InitiateBody 202 samplePayload)]
  /\ "job-1" ∈ pendingJobIds (jobs (applyCalls t initialState)).
Proof.
  intros t. split; [reflexivity |].
  apply (proj1 (proj2 (initiated_job_is_tracked (H := sampleEnv) (environment sampleServer)
           0 None (Fin 70000) [] initialState (jsonResponse InitiateBody 202 samplePayload)
           samplePayload eq_refl eq_refl eq_refl))).
  intros Hin. unfold terminalStatuses in Hin. rewrite !elem_of_cons, elem_of_nil in Hin.
  destruct Hin as [Hin | [Hin | [Hin | [Hin | []]]]]; discriminate Hin.
Defined.

(** X18, witness: the completed [job-1] of the sample jobs. *)
Lemma job_actions_when_settled_witness :
  wellKeyed sampleJobs
  /\ sampleJobs !! "job-1" = Some (sampleJob "job-1" completed (Some "https://s3/job-1"))
  /\ "job-1" ∉ pendingJobIds sampleJobs.
Proof.
  split; [exact sampleJobs_wellKeyed |]. split; [reflexivity |].
  apply (proj1 (proj2 (job_actions_when_settled sampleJobs "job-1" _
           sampleJobs_wellKeyed eq_refl))).
  reflexivity.
Defined.
